(** * Page interaction controller (public/scripts/main.js)

    A shallow embedding of the browser script that wires navigation,
    theme toggling and the contact form, together with the properties
    of it that the specification states.

    JavaScript strings are sequences of UTF-16 code units; they are
    modelled as [list N].  The DOM, [localStorage], timers and the
    controller's own variables are fields of explicit state records,
    and every function of the script is a function on those records.
    A function that can throw returns a [result]. *)

From Stdlib Require Import NArith String Ascii.
From stdpp Require Import base option list gmap.

Local Open Scope N_scope.

(** ** JavaScript strings *)

Abbreviation jsstring := (list N).

(** A string literal of the script, as its code units. *)
Definition lit (s : string) : jsstring :=
  (fun a => N_of_ascii a) <$> list_ascii_of_string s.

(** The characters matched by [\s] and stripped by [String.prototype.trim]:
    the WhiteSpace and LineTerminator productions of ECMAScript. *)
Definition is_space (c : N) : bool :=
  (9 <=? c) && (c <=? 13)            (* TAB LF VT FF CR *)
  || (c =? 32)                       (* SPACE *)
  || (c =? 160)                      (* NO-BREAK SPACE *)
  || (c =? 5760)                     (* U+1680 *)
  || (8192 <=? c) && (c <=? 8202)    (* U+2000 .. U+200A *)
  || (c =? 8232) || (c =? 8233)      (* LINE / PARAGRAPH SEPARATOR *)
  || (c =? 8239)                     (* U+202F *)
  || (c =? 8287)                     (* U+205F *)
  || (c =? 12288)                    (* U+3000 *)
  || (c =? 65279).                   (* U+FEFF *)

Fixpoint trimStart (s : jsstring) : jsstring :=
  match s with
  | c :: s' => if is_space c then trimStart s' else s
  | [] => []
  end.

Definition trimEnd (s : jsstring) : jsstring :=
  reverse (trimStart (reverse s)).

(** [s.trim()] *)
Definition trim (s : jsstring) : jsstring := trimEnd (trimStart s).

(** [s.startsWith(p)] *)
Fixpoint startsWith (p s : jsstring) : bool :=
  match p, s with
  | [], _ => true
  | a :: p', b :: s' => (a =? b) && startsWith p' s'
  | _ :: _, [] => false
  end.

Arguments startsWith : simpl never.

(** A string is truthy when it is not empty. *)
Definition nonempty (s : jsstring) : bool :=
  match s with [] => false | _ :: _ => true end.

(** ** Regular expressions

    The fragment of the RegExp syntax that the script uses: character
    classes, concatenation and [+].  [Matches] is the meaning of a
    pattern; [matchb] decides it by derivatives. *)

Module RegExp.

Inductive regex : Type :=
| Void
| Eps
| Cls (p : N → bool)
| Cat (r1 r2 : regex)
| Alt (r1 r2 : regex)
| Star (r : regex).

(** [r+] *)
Definition Plus (r : regex) : regex := Cat r (Star r).

Inductive Matches : regex → jsstring → Prop :=
| MEps : Matches Eps []
| MCls p c : p c = true → Matches (Cls p) [c]
| MCat r1 r2 s1 s2 :
    Matches r1 s1 → Matches r2 s2 → Matches (Cat r1 r2) (s1 ++ s2)
| MAltL r1 r2 s : Matches r1 s → Matches (Alt r1 r2) s
| MAltR r1 r2 s : Matches r2 s → Matches (Alt r1 r2) s
| MStarNil r : Matches (Star r) []
| MStarApp r s1 s2 :
    Matches r s1 → Matches (Star r) s2 → Matches (Star r) (s1 ++ s2).

Fixpoint nullable (r : regex) : bool :=
  match r with
  | Void => false
  | Eps => true
  | Cls _ => false
  | Cat r1 r2 => nullable r1 && nullable r2
  | Alt r1 r2 => nullable r1 || nullable r2
  | Star _ => true
  end.

Fixpoint deriv (c : N) (r : regex) : regex :=
  match r with
  | Void => Void
  | Eps => Void
  | Cls p => if p c then Eps else Void
  | Cat r1 r2 =>
      if nullable r1
      then Alt (Cat (deriv c r1) r2) (deriv c r2)
      else Cat (deriv c r1) r2
  | Alt r1 r2 => Alt (deriv c r1) (deriv c r2)
  | Star r1 => Cat (deriv c r1) (Star r1)
  end.

(** Does the whole string match ([^r$] without the multiline flag)? *)
Fixpoint matchb (r : regex) (s : jsstring) : bool :=
  match s with
  | [] => nullable r
  | c :: s' => matchb (deriv c r) s'
  end.

End RegExp.

Import RegExp.

(** [[^\s@]] *)
Definition notSpaceAt (c : N) : bool := negb (is_space c || (c =? 64)).

(** [/^[^\s@]+@[^\s@]+\.[^\s@]+$/] *)
Definition emailPattern : regex :=
  Cat (Plus (Cls notSpaceAt))
   (Cat (Cls (N.eqb 64))
    (Cat (Plus (Cls notSpaceAt))
     (Cat (Cls (N.eqb 46))
      (Plus (Cls notSpaceAt))))).

Definition isValidEmail (email : jsstring) : bool :=
  matchb emailPattern email.

(** The email shape in the words of the specification: a local part,
    an at sign, a domain, a dot and a top-level part, where the three
    parts are not empty and hold neither whitespace nor an at sign. *)
Definition email_part (s : jsstring) : Prop :=
  s ≠ [] ∧ Forall (λ c, is_space c = false ∧ c ≠ 64) s.

Definition email_shape (s : jsstring) : Prop :=
  ∃ l d t, email_part l ∧ email_part d ∧ email_part t ∧
           s = l ++ [64] ++ d ++ [46] ++ t.

(** ** The document

    Only what the script reads or writes is kept of an element. *)

(** [element.classList] *)
Abbreviation classList := (list jsstring).

Definition contains (c : jsstring) (l : classList) : bool :=
  bool_decide (c ∈ l).

Definition classList_remove (c : jsstring) (l : classList) : classList :=
  filter (λ x, x ≠ c) l.

Definition classList_add (c : jsstring) (l : classList) : classList :=
  if contains c l then l else l ++ [c].

(** [classList.toggle(c)] *)
Definition classList_toggle (c : jsstring) (l : classList) : classList :=
  if contains c l then classList_remove c l else l ++ [c].

(** [classList.toggle(c, force)] *)
Definition classList_force (c : jsstring) (force : bool) (l : classList)
  : classList :=
  if force then classList_add c l else classList_remove c l.

(** An [input] or [textarea] of the contact form.  [parentNode] names the
    element that holds the field and its inline error message. *)
Record Input := mkInput {
  value : jsstring;
  defaultValue : jsstring;
  required : bool;
  type : jsstring;
  borderColor : jsstring;
  parentNode : nat
}.

(** A [.error-message] element. *)
Record ErrorEl := mkErrorEl {
  err_cssText : jsstring;
  err_textContent : jsstring
}.

(** The [.btn-submit] control. *)
Record Button := mkButton {
  btn_textContent : jsstring;
  btn_disabled : bool
}.

(** The contact form.  [errorEls] gives, for each parent node, its
    [.error-message] descendants in document order. *)
Record Form := mkForm {
  inputs : list Input;
  errorEls : gmap nat (list ErrorEl);
  submitBtn : option Button
}.

(** A [.notification] banner; [ntf_id] is the identity of the element. *)
Record Notification := mkNotification {
  ntf_id : nat;
  ntf_className : jsstring;
  ntf_textContent : jsstring;
  ntf_background : jsstring;
  ntf_transform : jsstring
}.

(** What [document.querySelector(href)] gives for a link. *)
Inductive QueryResult : Type :=
| BadSelector
| NoMatch
| Found (offsetTop : Z).

(** A [.nav-link]. *)
Record Link := mkLink {
  href : option jsstring;
  target : QueryResult
}.

Record Header := mkHeader {
  hdr_classList : classList;
  hdr_offsetHeight : Z
}.

Record Loading := mkLoading {
  ld_classList : classList;
  ld_display : jsstring
}.

(** A [.service-card], [.work-item] or [.process-step]. *)
Record Card := mkCard {
  opacity : jsstring;
  transform : jsstring;
  transition : jsstring;
  observed : bool
}.

Record Document := mkDocument {
  loading : option Loading;          (* #loading *)
  header : option Header;            (* .header *)
  navToggle : option classList;      (* #navToggle *)
  navMenu : option classList;        (* .nav-menu *)
  contactForm : option Form;         (* #contactForm *)
  themeToggle : bool;                (* is there a #themeToggle? *)
  navLinks : list Link;              (* .nav-link *)
  cards : list Card;
  dataTheme : option jsstring;       (* data-theme of the root element *)
  bodyOverflow : jsstring;           (* document.body.style.overflow *)
  notifications : list Notification  (* .notification, document order *)
}.

(** ** The window *)

(** [localStorage].  [setItemCalls] records every call of [setItem], in
    order, so that "never written" can be stated. *)
Record Storage := mkStorage {
  items : gmap jsstring jsstring;
  setItemCalls : list (jsstring * jsstring)
}.

Definition getItem (k : jsstring) (s : Storage) : option jsstring :=
  items s !! k.

Definition setItem (k v : jsstring) (s : Storage) : Storage :=
  mkStorage (<[k := v]> (items s)) (setItemCalls s ++ [(k, v)]).

(** Callbacks handed to [setTimeout] and [requestAnimationFrame]. *)
Inductive Task : Type :=
| AnimateIn (id : nat)        (* notification: slide in *)
| SlideOut (id : nat)         (* notification: after 4000 ms *)
| RemoveNotification (id : nat)  (* notification: 300 ms later *)
| HideLoading                 (* overlay: after 300 ms *)
| LoadingGone                 (* overlay: 500 ms later *)
| HeaderFrame.                (* updateHeaderOnScroll *)

(** The listeners the script registers, named by target and handler. *)
Inductive Listener : Type :=
| OnNavToggleClick            (* toggleMobileMenu *)
| OnNavLinkClick (i : nat)    (* handleSmoothScroll *)
| OnScroll
| OnThemeToggleClick          (* toggleTheme *)
| OnSubmit                    (* handleFormSubmit *)
| OnBlur (i : nat)            (* validateInput *)
| OnInput (i : nat)           (* clearValidationError *)
| OnKeydown
| OnDOMContentLoaded          (* init *)
| OnVisibilityChange.

#[global] Instance Listener_eq_dec : EqDecision Listener.
Proof. solve_decision. Defined.

Record Window := mkWindow {
  localStorage : Storage;
  tasks : list Task;
  listeners : list Listener;
  pageYOffset : Z;
  scrollCalls : list Z;          (* the [top] of every scrollTo *)
  console : list jsstring;
  nextId : nat;                  (* identity of the next created element *)
  StaticPages : bool             (* is the debugging object exposed? *)
}.

(** What the script cannot change: media queries, host and load state. *)
Record Env := mkEnv {
  matchMedia : option (jsstring → bool);
  hostname : jsstring;
  readyState : jsstring
}.

(** ** The controller's variables

    [elements] caches references, not copies: an entry is undefined until
    [cacheElements] has run and is the element of the document from then
    on.  [cached] tells which; see [elements_navMenu] and the like.
    [pending] holds the [originalText] of every submission that waits
    for its response. *)
Record Controller := mkController {
  cached : bool;
  isInitialized : bool;
  marks : list jsstring;
  ticking : bool;
  pending : list jsstring
}.

Record Page := mkPage {
  doc : Document;
  win : Window;
  ctl : Controller
}.

(** ** Field updates *)

Definition set_loading v (d : Document) : Document :=
  mkDocument v (header d) (navToggle d) (navMenu d) (contactForm d)
    (themeToggle d) (navLinks d) (cards d) (dataTheme d) (bodyOverflow d)
    (notifications d).

Definition set_header v (d : Document) : Document :=
  mkDocument (loading d) v (navToggle d) (navMenu d) (contactForm d)
    (themeToggle d) (navLinks d) (cards d) (dataTheme d) (bodyOverflow d)
    (notifications d).

Definition set_navToggle v (d : Document) : Document :=
  mkDocument (loading d) (header d) v (navMenu d) (contactForm d)
    (themeToggle d) (navLinks d) (cards d) (dataTheme d) (bodyOverflow d)
    (notifications d).

Definition set_navMenu v (d : Document) : Document :=
  mkDocument (loading d) (header d) (navToggle d) v (contactForm d)
    (themeToggle d) (navLinks d) (cards d) (dataTheme d) (bodyOverflow d)
    (notifications d).

Definition set_contactForm v (d : Document) : Document :=
  mkDocument (loading d) (header d) (navToggle d) (navMenu d) v
    (themeToggle d) (navLinks d) (cards d) (dataTheme d) (bodyOverflow d)
    (notifications d).

Definition set_cards v (d : Document) : Document :=
  mkDocument (loading d) (header d) (navToggle d) (navMenu d) (contactForm
    d) (themeToggle d) (navLinks d) v (dataTheme d) (bodyOverflow d)
    (notifications d).

Definition set_dataTheme v (d : Document) : Document :=
  mkDocument (loading d) (header d) (navToggle d) (navMenu d) (contactForm
    d) (themeToggle d) (navLinks d) (cards d) v (bodyOverflow d)
    (notifications d).

Definition set_bodyOverflow v (d : Document) : Document :=
  mkDocument (loading d) (header d) (navToggle d) (navMenu d) (contactForm
    d) (themeToggle d) (navLinks d) (cards d) (dataTheme d) v
    (notifications d).

Definition set_notifications v (d : Document) : Document :=
  mkDocument (loading d) (header d) (navToggle d) (navMenu d) (contactForm
    d) (themeToggle d) (navLinks d) (cards d) (dataTheme d) (bodyOverflow
    d) v.

Definition set_localStorage v (w : Window) : Window :=
  mkWindow v (tasks w) (listeners w) (pageYOffset w) (scrollCalls w)
    (console w) (nextId w) (StaticPages w).

Definition set_tasks v (w : Window) : Window :=
  mkWindow (localStorage w) v (listeners w) (pageYOffset w) (scrollCalls
    w) (console w) (nextId w) (StaticPages w).

Definition set_listeners v (w : Window) : Window :=
  mkWindow (localStorage w) (tasks w) v (pageYOffset w) (scrollCalls w)
    (console w) (nextId w) (StaticPages w).

Definition set_pageYOffset v (w : Window) : Window :=
  mkWindow (localStorage w) (tasks w) (listeners w) v (scrollCalls w)
    (console w) (nextId w) (StaticPages w).

Definition set_scrollCalls v (w : Window) : Window :=
  mkWindow (localStorage w) (tasks w) (listeners w) (pageYOffset w) v
    (console w) (nextId w) (StaticPages w).

Definition set_console v (w : Window) : Window :=
  mkWindow (localStorage w) (tasks w) (listeners w) (pageYOffset w)
    (scrollCalls w) v (nextId w) (StaticPages w).

Definition set_nextId v (w : Window) : Window :=
  mkWindow (localStorage w) (tasks w) (listeners w) (pageYOffset w)
    (scrollCalls w) (console w) v (StaticPages w).

Definition set_StaticPages v (w : Window) : Window :=
  mkWindow (localStorage w) (tasks w) (listeners w) (pageYOffset w)
    (scrollCalls w) (console w) (nextId w) v.

Definition set_cached v (c : Controller) : Controller :=
  mkController v (isInitialized c) (marks c) (ticking c) (pending c).

Definition set_isInitialized v (c : Controller) : Controller :=
  mkController (cached c) v (marks c) (ticking c) (pending c).

Definition set_marks v (c : Controller) : Controller :=
  mkController (cached c) (isInitialized c) v (ticking c) (pending c).

Definition set_ticking v (c : Controller) : Controller :=
  mkController (cached c) (isInitialized c) (marks c) v (pending c).

Definition set_pending v (c : Controller) : Controller :=
  mkController (cached c) (isInitialized c) (marks c) (ticking c) v.

Definition upd_doc (f : Document → Document) (p : Page) : Page :=
  mkPage (f (doc p)) (win p) (ctl p).

Definition upd_win (f : Window → Window) (p : Page) : Page :=
  mkPage (doc p) (f (win p)) (ctl p).

Definition upd_ctl (f : Controller → Controller) (p : Page) : Page :=
  mkPage (doc p) (win p) (f (ctl p)).

(** ** Results

    A handler either returns or throws; the page it has reached by then
    stays as it is in both cases. *)

Inductive result : Type :=
| Ok (p : Page)
| Throw (e : jsstring) (p : Page).   (* [e] names the error *)

Definition state_of (r : result) : Page :=
  match r with Ok p | Throw _ p => p end.

Definition andThen (r : result) (k : Page → result) : result :=
  match r with
  | Ok p => k p
  | Throw e p => Throw e p
  end.

(** An element reference is truthy; [null] and [undefined] are not. *)
Definition present {A : Type} (o : option A) : bool :=
  match o with Some _ => true | None => false end.

Definition TypeError : jsstring := lit "TypeError".
Definition SyntaxError : jsstring := lit "SyntaxError".

(** ** The element cache *)

Definition elements_loading (p : Page) : option Loading :=
  if cached (ctl p) then loading (doc p) else None.

Definition elements_header (p : Page) : option Header :=
  if cached (ctl p) then header (doc p) else None.

Definition elements_navToggle (p : Page) : option classList :=
  if cached (ctl p) then navToggle (doc p) else None.

Definition elements_navMenu (p : Page) : option classList :=
  if cached (ctl p) then navMenu (doc p) else None.

Definition elements_contactForm (p : Page) : option Form :=
  if cached (ctl p) then contactForm (doc p) else None.

Definition elements_themeToggle (p : Page) : bool :=
  cached (ctl p) && themeToggle (doc p).

Definition elements_navLinks (p : Page) : option (list Link) :=
  if cached (ctl p) then Some (navLinks (doc p)) else None.

Definition cacheElements (p : Page) : Page :=
  upd_ctl (set_cached true) p.

(** [performance.marks[name] = ...]: the keys, in insertion order. *)
Definition mark (name : jsstring) (p : Page) : Page :=
  if bool_decide (name ∈ marks (ctl p)) then p
  else upd_ctl (set_marks (marks (ctl p) ++ [name])) p.

Definition addEventListener (l : Listener) (p : Page) : Page :=
  if bool_decide (l ∈ listeners (win p)) then p
  else upd_win (set_listeners (listeners (win p) ++ [l])) p.

(** [setTimeout] and [requestAnimationFrame] *)
Definition schedule (t : Task) (p : Page) : Page :=
  upd_win (set_tasks (tasks (win p) ++ [t])) p.

(** ** Navigation *)

Definition active : jsstring := lit "active".

Definition toggleMobileMenu (p : Page) : result :=
  match elements_navMenu p with
  | Some menu =>
      let menu' := classList_toggle active menu in
      let p1 := upd_doc (set_navMenu (Some menu')) p in
      match elements_navToggle p1 with
      | None => Throw TypeError p1
      | Some toggle =>
          let p2 :=
            upd_doc (set_navToggle (Some (classList_toggle active toggle))) p1 in
          Ok (upd_doc (set_bodyOverflow
                         (if contains active menu' then lit "hidden" else []))
                      p2)
      end
  | None => Ok p
  end.

Definition menuIsActive (p : Page) : bool :=
  match elements_navMenu p with
  | Some menu => contains active menu
  | None => false
  end.

(** [this] is the link that was clicked. *)
Definition handleSmoothScroll (this : Link) (p : Page) : result :=
  match target this with
  | BadSelector => Throw SyntaxError p
  | NoMatch => Ok p
  | Found offsetTop =>
      let headerHeight :=
        match elements_header p with
        | Some h => hdr_offsetHeight h
        | None => 80%Z
        end in
      let targetPosition := (offsetTop - headerHeight)%Z in
      let p1 :=
        upd_win (set_scrollCalls (scrollCalls (win p) ++ [targetPosition])) p in
      if menuIsActive p1 then toggleMobileMenu p1 else Ok p1
  end.

Definition updateHeaderOnScroll (p : Page) : Page :=
  match elements_header p with
  | Some h =>
      let scrolled := (10 <? pageYOffset (win p))%Z in
      upd_doc (set_header
                 (Some (mkHeader
                          (classList_force (lit "scrolled") scrolled
                                           (hdr_classList h))
                          (hdr_offsetHeight h)))) p
  | None => p
  end.

(** The scroll listener of [setupNavigation]. *)
Definition onScroll (p : Page) : Page :=
  if ticking (ctl p) then p
  else upd_ctl (set_ticking true) (schedule HeaderFrame p).

Fixpoint bindNavLinks (i : nat) (links : list Link) (p : Page) : result :=
  match links with
  | [] => Ok p
  | link :: rest =>
      match href link with
      | None => Throw TypeError p
      | Some h =>
          bindNavLinks (S i) rest
            (if startsWith (lit "#") h
             then addEventListener (OnNavLinkClick i) p
             else p)
      end
  end.

Definition setupNavigation (p : Page) : result :=
  let p1 :=
    if present (elements_navToggle p) && present (elements_navMenu p)
    then addEventListener OnNavToggleClick p
    else p in
  match elements_navLinks p1 with
  | None => Throw TypeError p1
  | Some links =>
      andThen (bindNavLinks 0 links p1) (λ p2,
        Ok (if present (elements_header p2)
            then addEventListener OnScroll (upd_ctl (set_ticking false) p2)
            else p2))
  end.

(** The [keydown] listener. *)
Definition onKeydown (key : jsstring) (p : Page) : result :=
  if bool_decide (key = lit "Escape") && menuIsActive p
  then toggleMobileMenu p
  else Ok p.

(** ** Theme *)

Definition theme : jsstring := lit "theme".
Definition dark : jsstring := lit "dark".
Definition light : jsstring := lit "light".

Definition setTheme (t : jsstring) (p : Page) : Page :=
  let p1 := upd_doc (set_dataTheme (Some t)) p in
  upd_win (set_localStorage (setItem theme t (localStorage (win p1)))) p1.

Definition toggleTheme (p : Page) : Page :=
  let currentTheme := dataTheme (doc p) in
  let newTheme :=
    if bool_decide (currentTheme = Some dark) then light else dark in
  setTheme newTheme p.

Definition systemPrefersDark (env : Env) : bool :=
  match matchMedia env with
  | Some mm => mm (lit "(prefers-color-scheme: dark)")
  | None => false
  end.

(** [savedTheme || (systemPrefersDark ? 'dark' : 'light')] *)
Definition initialTheme (savedTheme : option jsstring) (prefersDark : bool)
  : jsstring :=
  match savedTheme with
  | Some (c :: s) => c :: s
  | Some [] | None => if prefersDark then dark else light
  end.

Definition setupThemeToggle (env : Env) (p : Page) : Page :=
  if negb (elements_themeToggle p) then p
  else
    let savedTheme := getItem theme (localStorage (win p)) in
    addEventListener OnThemeToggleClick
      (setTheme (initialTheme savedTheme (systemPrefersDark env)) p).

(** ** Scroll effects *)

Definition hideCard (c : Card) : Card :=
  mkCard (lit "0") (lit "translateY(20px)")
         (lit "opacity 0.6s ease, transform 0.6s ease") true.

Definition setupScrollEffects (env : Env) (p : Page) : result :=
  match matchMedia env with
  | None => Throw TypeError p
  | Some mm =>
      if mm (lit "(prefers-reduced-motion: reduce)") then Ok p
      else Ok (upd_doc (set_cards (hideCard <$> cards (doc p))) p)
  end.

(** The observer's callback for one entry. *)
Definition revealCard (isIntersecting : bool) (c : Card) : Card :=
  if observed c && isIntersecting
  then mkCard (lit "1") (lit "translateY(0)") (transition c) false
  else c.

(** ** Notifications *)

(** [const existing = document.querySelector('.notification');
     if (existing) existing.remove();] *)
Definition removeExisting (p : Page) : Page :=
  upd_doc (set_notifications (tail (notifications (doc p)))) p.

Definition newNotification (id : nat) (message type : jsstring)
  : Notification :=
  mkNotification id
    (lit "notification notification-" ++ type)
    message
    (if bool_decide (type = lit "success") then lit "#28a745"
     else lit "#dc3545")
    (lit "translateX(100%)").

(** The rest of [showNotification]: create the banner, append it to the
    body, and schedule its animation and its removal. *)
Definition appendNotification (message type : jsstring) (p : Page) : Page :=
  let id := nextId (win p) in
  let p1 :=
    upd_doc (set_notifications
               (notifications (doc p) ++ [newNotification id message type]))
            (upd_win (set_nextId (S id)) p) in
  schedule (SlideOut id) (schedule (AnimateIn id) p1).

Definition showNotification (message type : jsstring) (p : Page) : Page :=
  appendNotification message type (removeExisting p).

Definition setTransform (id : nat) (t : jsstring) (n : Notification)
  : Notification :=
  if bool_decide (ntf_id n = id)
  then mkNotification (ntf_id n) (ntf_className n) (ntf_textContent n)
                      (ntf_background n) t
  else n.

(** ** Loading overlay *)

Definition hideLoadingScreen (p : Page) : Page :=
  if present (elements_loading p) then schedule HideLoading p else p.

(** ** Timers and animation frames *)

Definition runTask (t : Task) (p : Page) : Page :=
  match t with
  | AnimateIn id =>
      upd_doc (set_notifications
                 (setTransform id (lit "translateX(0)")
                    <$> notifications (doc p))) p
  | SlideOut id =>
      schedule (RemoveNotification id)
        (upd_doc (set_notifications
                    (setTransform id (lit "translateX(100%)")
                       <$> notifications (doc p))) p)
  | RemoveNotification id =>
      upd_doc (set_notifications
                 (filter (λ n, ntf_id n ≠ id) (notifications (doc p)))) p
  | HideLoading =>
      match elements_loading p with
      | Some l =>
          schedule LoadingGone
            (upd_doc (set_loading
                        (Some (mkLoading
                                 (classList_add (lit "hide") (ld_classList l))
                                 (ld_display l)))) p)
      | None => p
      end
  | LoadingGone =>
      match elements_loading p with
      | Some l =>
          upd_doc (set_loading (Some (mkLoading (ld_classList l) (lit "none"))))
                  p
      | None => p
      end
  | HeaderFrame => updateHeaderOnScroll p
  end.

(** ** Form validation *)

Abbreviation errorStore := (gmap nat (list ErrorEl)).

Definition set_borderColor (c : jsstring) (i : Input) : Input :=
  mkInput (value i) (defaultValue i) (required i) (type i) c (parentNode i).

Definition set_value (v : jsstring) (i : Input) : Input :=
  mkInput v (defaultValue i) (required i) (type i) (borderColor i)
          (parentNode i).

(** The [.error-message] elements below the parent of an input. *)
Definition errorsOf (i : Input) (errs : errorStore) : list ErrorEl :=
  default [] (errs !! parentNode i).

Definition clearValidationError (input : Input) (errs : errorStore)
  : Input * errorStore :=
  (set_borderColor [] input, alter tail (parentNode input) errs).

Definition errorCss : jsstring :=
  lit "color: #dc3545; font-size: 0.875rem; margin-top: 0.25rem;".

Definition showValidationError (input : Input) (message : jsstring)
    (errs : errorStore) : Input * errorStore :=
  (set_borderColor (lit "#dc3545") input,
   match errorsOf input errs with
   | errorEl :: rest =>
       <[parentNode input := mkErrorEl (err_cssText errorEl) message :: rest]>
         errs
   | [] => <[parentNode input := [mkErrorEl errorCss message]]> errs
   end).

Definition msgRequired : jsstring := lit "This field is required".
Definition msgEmail : jsstring := lit "Please enter a valid email address".

Definition validateInput (input : Input) (errs : errorStore)
  : bool * (Input * errorStore) :=
  let v := trim (value input) in
  let '(input1, errs1) := clearValidationError input errs in
  if required input && negb (nonempty v) then
    (false, showValidationError input1 msgRequired errs1)
  else if bool_decide (type input = lit "email") && nonempty v
          && negb (isValidEmail v) then
    (false, showValidationError input1 msgEmail errs1)
  else
    (true, (input1, errs1)).

(** [requiredInputs.forEach(...)] of [handleFormSubmit]: every input with
    the [required] attribute is validated, in document order. *)
Fixpoint validateRequired (ins : list Input) (errs : errorStore)
  : bool * (list Input * errorStore) :=
  match ins with
  | [] => (true, ([], errs))
  | input :: rest =>
      if required input then
        let '(ok, (input', errs1)) := validateInput input errs in
        let '(isFormValid, (rest', errs2)) := validateRequired rest errs1 in
        (ok && isFormValid, (input' :: rest', errs2))
      else
        let '(isFormValid, (rest', errs2)) := validateRequired rest errs in
        (isFormValid, (input :: rest', errs2))
  end.

(** [form.reset()] *)
Definition reset (f : Form) : Form :=
  mkForm ((λ i, set_value (defaultValue i) i) <$> inputs f)
         (errorEls f) (submitBtn f).

(** ** The response of the relay *)

(** A parsed JSON body.  Of a number the script can only observe
    whether it is zero. *)
#[local] Set Warnings "-register-all".
Inductive json : Type :=
| JNull
| JBool (b : bool)
| JNumber (nonzero : bool)
| JString (s : jsstring)
| JArray (l : list json)
| JObject (fields : list (jsstring * json)).

Fixpoint lookupField (k : jsstring) (fields : list (jsstring * json))
  : option json :=
  match fields with
  | [] => None
  | (k', v) :: rest => if bool_decide (k' = k) then Some v else lookupField k rest
  end.

(** [data.k]: [None] is a TypeError, [Some None] is [undefined]. *)
Definition getProperty (data : json) (k : jsstring) : option (option json) :=
  match data with
  | JNull => None
  | JObject fields => Some (lookupField k fields)
  | _ => Some None
  end.

Definition truthy (v : option json) : bool :=
  match v with
  | None | Some JNull => false
  | Some (JBool b) => b
  | Some (JNumber nonzero) => nonzero
  | Some (JString s) => nonempty s
  | Some (JArray _) | Some (JObject _) => true
  end.

Inductive Body : Type :=
| NotJson                 (* [response.json()] rejects *)
| Json (data : json).

Inductive FetchOutcome : Type :=
| NetworkError            (* [fetch] rejects *)
| Response (ok : bool) (body : Body).

(** [response.ok && data.success], when the body could be read. *)
Definition succeeded (o : FetchOutcome) : bool :=
  match o with
  | Response ok (Json data) =>
      match getProperty data (lit "success") with
      | Some success => ok && truthy success
      | None => false
      end
  | Response _ NotJson | NetworkError => false
  end.

(** ** Form submission *)

Definition msgFix : jsstring := lit "Please fix the errors below".
Definition msgSent : jsstring :=
  lit "Message sent successfully! We'll get back to you soon.".
Definition msgFailed : jsstring :=
  lit "Failed to send message. Please try again.".

Definition setForm (f : Form) (p : Page) : Page :=
  upd_doc (set_contactForm (Some f)) p.

(** How [handleFormSubmit] leaves its first stretch: it has returned or
    thrown, or it waits for the response with [originalText] in hand. *)
Inductive started : Type :=
| Done (r : result)
| Awaiting (originalText : jsstring) (p : Page).

(** [handleFormSubmit] up to its first [await]. *)
Definition submitStart (p : Page) : started :=
  match elements_contactForm p with
  | None => Done (Throw TypeError p)
  | Some f =>
      let '(isFormValid, (ins, errs)) :=
        validateRequired (inputs f) (errorEls f) in
      let p1 := setForm (mkForm ins errs (submitBtn f)) p in
      if negb isFormValid then
        Done (Ok (showNotification msgFix (lit "error") p1))
      else
        match submitBtn f with
        | None => Done (Throw TypeError p1)
        | Some submitBtn =>
            let originalText := btn_textContent submitBtn in
            Awaiting originalText
              (setForm (mkForm ins errs
                          (Some (mkButton (lit "Sending...") true))) p1)
        end
  end.

(** The form that a running submission works on is the one its closure
    holds, the contact form of the document; [mapForm] updates it in
    place. *)
Definition mapForm (g : Form → Form) (p : Page) : Page :=
  match contactForm (doc p) with
  | Some f => setForm (g f) p
  | None => p
  end.

Definition restoreButton (originalText : jsstring) (f : Form) : Form :=
  mkForm (inputs f) (errorEls f)
    (match submitBtn f with
     | Some _ => Some (mkButton originalText false)
     | None => None
     end).

(** [handleFormSubmit] from the point where the response, or the failure
    to get one, is known: the rest of [try], then [catch] and [finally]. *)
Definition submitSettled (originalText : jsstring) (o : FetchOutcome)
    (p : Page) : Page :=
  let p1 :=
    if succeeded o then
      mapForm reset (showNotification msgSent (lit "success") p)
    else
      upd_win (set_console
                 (console (win p) ++ [lit "Form submission error:"]))
              (showNotification msgFailed (lit "error") p) in
  mapForm (restoreButton originalText) p1.

(** A submission with nothing else happening before the response. *)
Definition handleFormSubmit (o : FetchOutcome) (p : Page) : result :=
  match submitStart p with
  | Done r => r
  | Awaiting originalText p1 => Ok (submitSettled originalText o p1)
  end.

(** ** Initialisation *)

Fixpoint bindInputs (i : nat) (ins : list Input) (p : Page) : Page :=
  match ins with
  | [] => p
  | _ :: rest =>
      bindInputs (S i) rest
        (addEventListener (OnInput i) (addEventListener (OnBlur i) p))
  end.

Definition setupFormHandling (p : Page) : Page :=
  match elements_contactForm p with
  | None => p
  | Some f => bindInputs 0 (inputs f) (addEventListener OnSubmit p)
  end.

Definition localhost : jsstring := lit "localhost".

Definition init (env : Env) (p : Page) : result :=
  if isInitialized (ctl p) then Ok p
  else
    let p := upd_ctl (set_isInitialized true) p in
    let p := mark (lit "init_start") p in
    let p := cacheElements p in
    andThen (setupNavigation p) (λ p,
      let p := setupThemeToggle env p in
      andThen (setupScrollEffects env p) (λ p,
        let p := setupFormHandling p in
        let p := hideLoadingScreen p in
        let p := mark (lit "init_complete") p in
        Ok (if bool_decide (hostname env = localhost)
            then upd_win (set_console
                            (console (win p) ++ [lit "Performance marks:"])) p
            else p))).

(** The body of the script, run once when the page loads it. *)
Definition script (env : Env) (p : Page) : result :=
  let p := addEventListener OnKeydown p in
  andThen (if bool_decide (readyState env = lit "loading")
           then Ok (addEventListener OnDOMContentLoaded p)
           else init env p) (λ p,
    let p := addEventListener OnVisibilityChange p in
    Ok (if bool_decide (hostname env = localhost)
        then upd_win (set_StaticPages true) p
        else p)).

(** An identity that no banner of the served document has. *)
Definition freshId (ns : list Notification) : nat :=
  S (foldr (λ n m, Nat.max (ntf_id n) m) 0%nat ns).

(** The page before the script runs: the document as served, the stored
    items of earlier visits, and nothing else. *)
Definition newPage (d : Document) (stored : gmap jsstring jsstring) : Page :=
  mkPage d
    (mkWindow (mkStorage stored []) [] [] 0%Z [] [] (freshId (notifications d))
              false)
    (mkController false false [] false []).

Definition load (env : Env) (d : Document) (stored : gmap jsstring jsstring)
  : Page :=
  state_of (script env (newPage d stored)).

(** ** Events

    What the browser can deliver to the page once the script has run.
    A listener runs only if it was registered. *)

Inductive Event : Type :=
| DOMContentLoaded
| ClickNavToggle
| ClickNavLink (i : nat)
| ClickThemeToggle
| Scroll (y : Z)
| Keydown (key : jsstring)
| VisibilityChange (hidden : bool)
| Blur (i : nat)
| Edit (i : nat) (v : jsstring)     (* the user changes a field *)
| Submit
| Settled (o : FetchOutcome)        (* the oldest pending fetch settles *)
| Timer (n : nat)                   (* the n-th scheduled callback runs *)
| Intersect (i : nat) (isIntersecting : bool).

Definition listens (l : Listener) (p : Page) : bool :=
  bool_decide (l ∈ listeners (win p)).

(** Apply [g] to the [i]-th input of the form and to the error store. *)
Definition onInput (i : nat)
    (g : Input → errorStore → Input * errorStore) (p : Page) : Page :=
  match contactForm (doc p) with
  | Some f =>
      match inputs f !! i with
      | Some input =>
          let '(input', errs) := g input (errorEls f) in
          setForm (mkForm (<[i := input']> (inputs f)) errs (submitBtn f)) p
      | None => p
      end
  | None => p
  end.

Definition dispatch (env : Env) (e : Event) (p : Page) : result :=
  match e with
  | DOMContentLoaded =>
      if listens OnDOMContentLoaded p then init env p else Ok p
  | ClickNavToggle =>
      if listens OnNavToggleClick p then toggleMobileMenu p else Ok p
  | ClickNavLink i =>
      match navLinks (doc p) !! i with
      | Some link =>
          if listens (OnNavLinkClick i) p then handleSmoothScroll link p
          else Ok p
      | None => Ok p
      end
  | ClickThemeToggle =>
      Ok (if listens OnThemeToggleClick p then toggleTheme p else p)
  | Scroll y =>
      let p1 := upd_win (set_pageYOffset y) p in
      Ok (if listens OnScroll p1 then onScroll p1 else p1)
  | Keydown key =>
      if listens OnKeydown p then onKeydown key p else Ok p
  | VisibilityChange hidden =>
      Ok (if listens OnVisibilityChange p
          then mark (if hidden then lit "page_hidden" else lit "page_visible") p
          else p)
  | Blur i =>
      Ok (if listens (OnBlur i) p
          then onInput i (λ input errs, snd (validateInput input errs)) p
          else p)
  | Edit i v =>
      let p1 := onInput i (λ input errs, (set_value v input, errs)) p in
      Ok (if listens (OnInput i) p1 then onInput i clearValidationError p1
          else p1)
  | Submit =>
      if listens OnSubmit p then
        match submitStart p with
        | Done r => r
        | Awaiting originalText p1 =>
            Ok (upd_ctl (set_pending (pending (ctl p1) ++ [originalText])) p1)
        end
      else Ok p
  | Settled o =>
      match pending (ctl p) with
      | originalText :: rest =>
          Ok (submitSettled originalText o (upd_ctl (set_pending rest) p))
      | [] => Ok p
      end
  | Timer n =>
      match tasks (win p) !! n with
      | Some t => Ok (runTask t (upd_win (set_tasks (delete n (tasks (win p)))) p))
      | None => Ok p
      end
  | Intersect i isIntersecting =>
      Ok (upd_doc (set_cards
                     (alter (revealCard isIntersecting) i (cards (doc p)))) p)
  end.

(** An uncaught error ends the handler, not the page: the next event finds
    the page as the handler left it. *)
Definition step (env : Env) (p : Page) (e : Event) : Page :=
  state_of (dispatch env e p).

Definition run (env : Env) (es : list Event) (p : Page) : Page :=
  foldl (step env) p es.

(** ** The validation rules in the words of the specification *)

(** What validating a field is to report when the validator sees the
    value [v]: [Some message] is a refusal with that message, [None] is
    success. *)
Inductive rule (input : Input) (v : jsstring) : option jsstring → Prop :=
| RuleRequired :
    required input = true → v = [] → rule input v (Some msgRequired)
| RuleEmail :
    ¬ (required input = true ∧ v = []) →
    type input = lit "email" → v ≠ [] → ¬ email_shape v →
    rule input v (Some msgEmail)
| RuleValidEmail :
    type input = lit "email" → v ≠ [] → email_shape v → rule input v None.

(** What [validateInput] did: a refusal returns [false], paints the border
    and leaves the message in the first error element beside the field;
    a success returns [true], resets the border and has removed the error
    element that was shown before, if any. *)
Definition reports (input : Input) (errs : errorStore) (o : option jsstring)
  : Prop :=
  let '(isValid, (input', errs')) := validateInput input errs in
  match o with
  | Some message =>
      isValid = false ∧ borderColor input' = lit "#dc3545" ∧
      err_textContent <$> head (errorsOf input' errs') = Some message
  | None =>
      isValid = true ∧ borderColor input' = [] ∧
      errorsOf input' errs' = tail (errorsOf input errs)
  end.

Definition whitespaceOnly (s : jsstring) : Prop :=
  Forall (λ c, is_space c = true) s.

(** ** The theme resolution in the words of the specification *)

(** The theme that startup is to apply: the persisted value if there is
    one (the script takes an empty string for none), else dark when the
    system prefers dark, else light. *)
Inductive resolved (saved : option jsstring) (prefersDark : bool)
  : jsstring → Prop :=
| FromStorage t : saved = Some t → t ≠ [] → resolved saved prefersDark t
| FromSystem :
    saved = None ∨ saved = Some [] → prefersDark = true →
    resolved saved prefersDark dark
| FromDefault :
    saved = None ∨ saved = Some [] → prefersDark = false →
    resolved saved prefersDark light.

Definition supported (t : jsstring) : Prop := t = light ∨ t = dark.

Definition persistedTheme (p : Page) : option jsstring :=
  getItem theme (localStorage (win p)).

(** ** Submission in the words of the specification *)

(** Does the field pass validation?  (The answer of [validateInput] does
    not depend on the error elements; see [validateInput_validates].) *)
Definition validates (input : Input) : bool := (validateInput input ∅).1.

Definition requiredFieldsPass (f : Form) : Prop :=
  Forall (λ input, required input = true → validates input = true) (inputs f).

(** The relay answered with a failing status, or no answer came. *)
Definition failed (o : FetchOutcome) : Prop :=
  match o with
  | NetworkError => True
  | Response ok _ => ok = false
  end.

(** The body carries a success indicator that counts as true. *)
Definition indicatesSuccess (data : json) : Prop :=
  ∃ v, getProperty data (lit "success") = Some (Some v) ∧
       truthy (Some v) = true.

(** The banner that [showNotification] adds to page [p]. *)
Definition banner (message type : jsstring) (p : Page) : Notification :=
  newNotification (nextId (win p)) message type.

(** What a failed submission leaves behind, from page [p] with form [f]
    to page [p'] with form [f']. *)
Definition failureShown (p : Page) (f : Form) (p' : Page) (f' : Form)
  : Prop :=
  value <$> inputs f' = value <$> inputs f ∧
  notifications (doc p')
  = tail (notifications (doc p)) ++ [banner msgFailed (lit "error") p].

Definition buttonRestored (btn : Button) (f' : Form) : Prop :=
  submitBtn f' = Some (mkButton (btn_textContent btn) false).

(** The body's success indicator is the boolean [true]. *)
Definition successIsTrue (data : json) : Prop :=
  getProperty data (lit "success") = Some (Some (JBool true)).

(** What a successful submission leaves behind: every field is back at
    its default and the success banner replaces any earlier banner. *)
Definition successShown (p : Page) (f : Form) (p' : Page) (f' : Form)
  : Prop :=
  value <$> inputs f' = defaultValue <$> inputs f ∧
  notifications (doc p')
  = tail (notifications (doc p)) ++ [banner msgSent (lit "success") p].

(** ** Notions used to state the invariants *)

(** [q] is [p] with, at most, more listeners. *)
Definition onlyListeners (p q : Page) : Prop :=
  doc q = doc p ∧ ctl q = ctl p ∧
  localStorage (win q) = localStorage (win p) ∧
  tasks (win q) = tasks (win p) ∧
  ∀ l, listens l p = true → listens l q = true.

(** The number of notification banners in the document. *)
Definition banners (p : Page) : nat := length (notifications (doc p)).

(** The part of the document that initialisation leaves alone. *)
Definition docCore (d : Document) :=
  (loading d, header d, navToggle d, navMenu d, contactForm d,
   themeToggle d, navLinks d, bodyOverflow d, notifications d).

(** [q] comes from [p] by a step of initialisation: the core of the
    document and the cache are the same, and no listener is lost. *)
Definition setupStep (p q : Page) : Prop :=
  docCore (doc q) = docCore (doc p) ∧
  cached (ctl q) = cached (ctl p) ∧
  isInitialized (ctl q) = isInitialized (ctl p) ∧
  pending (ctl q) = pending (ctl p) ∧
  ∀ l, listens l p = true → listens l q = true.

(** ** Initialisation in the words of the specification *)

(** Every feature whose elements are in document [d] has been set up on
    page [q]: its listener is registered, its theme applied, its cards
    prepared, its timer started. *)
Definition featuresSetUp (env : Env) (d : Document)
    (stored : gmap jsstring jsstring) (q : Page) : Prop :=
  (* mobile menu *)
  (present (navToggle d) && present (navMenu d) = true →
   listens OnNavToggleClick q = true) ∧
  (* smooth scrolling *)
  (∀ i link h,
     navLinks d !! i = Some link → href link = Some h →
     startsWith (lit "#") h = true →
     listens (OnNavLinkClick i) q = true) ∧
  (* header effect *)
  (present (header d) = true → listens OnScroll q = true) ∧
  (* theme *)
  (themeToggle d = true →
   listens OnThemeToggleClick q = true ∧
   dataTheme (doc q)
   = Some (initialTheme (stored !! theme) (systemPrefersDark env))) ∧
  (* fade-in *)
  (∀ mm, matchMedia env = Some mm →
         mm (lit "(prefers-reduced-motion: reduce)") = false →
         cards (doc q) = hideCard <$> cards d) ∧
  (* contact form *)
  (∀ f, contactForm d = Some f →
        listens OnSubmit q = true ∧
        ∀ i, (i < length (inputs f))%nat →
             listens (OnBlur i) q = true ∧ listens (OnInput i) q = true) ∧
  (* loading overlay *)
  (present (loading d) = true → HideLoading ∈ tasks (win q)).

(** What a handler leaves as it is, by part of the page. *)
Definition keepsCore (p q : Page) : Prop :=
  themeToggle (doc q) = themeToggle (doc p) ∧
  present (navToggle (doc q)) = present (navToggle (doc p)) ∧
  cached (ctl q) = cached (ctl p) ∧
  isInitialized (ctl q) = isInitialized (ctl p) ∧
  listeners (win q) = listeners (win p).

Definition keepsStorage (p q : Page) : Prop :=
  localStorage (win q) = localStorage (win p).

Definition keepsMenu (p q : Page) : Prop :=
  navMenu (doc q) = navMenu (doc p) ∧ navToggle (doc q) = navToggle (doc p) ∧
  bodyOverflow (doc q) = bodyOverflow (doc p).

Definition keepsBanners (p q : Page) : Prop :=
  notifications (doc q) = notifications (doc p).

(** ** The mobile menu in the words of the specification *)

(** Is the navigation menu of the document in its active state? *)
Definition menuActive (d : Document) : bool :=
  match navMenu d with
  | Some menu => contains active menu
  | None => false
  end.

(** Does the body suppress scrolling? *)
Definition scrollLocked (d : Document) : bool :=
  bool_decide (bodyOverflow d = lit "hidden").

(** The document is served with the menu closed and the body free to
    scroll. *)
Definition servedClosed (d : Document) : Prop :=
  menuActive d = false ∧ scrollLocked d = false.

(** The invariant of the menu: active and locked go together, the
    listener of the toggle is registered only if the toggle is there, and
    without a toggle the menu is closed. *)
Definition menuInvariant (p : Page) : Prop :=
  menuActive (doc p) = scrollLocked (doc p) ∧
  (listens OnNavToggleClick p = true → present (navToggle (doc p)) = true) ∧
  (present (navToggle (doc p)) = false → menuActive (doc p) = false).

(** ** The persisted theme in the words of the specification *)

(** The writes to [localStorage] so far. *)
Definition writes (p : Page) : list (jsstring * jsstring) :=
  setItemCalls (localStorage (win p)).

(** The one write that initialisation makes when the theme toggle is
    there: the theme it has resolved. *)
Definition initialWrite (env : Env) (stored : gmap jsstring jsstring)
  : jsstring * jsstring :=
  (theme, initialTheme (stored !! theme) (systemPrefersDark env)).

(** The invariant of the storage while the theme toggle is not used. *)
Definition storageInvariant (env : Env) (d : Document)
    (stored : gmap jsstring jsstring) (p : Page) : Prop :=
  themeToggle (doc p) = themeToggle d ∧
  (localStorage (win p) = mkStorage stored [] ∨
   isInitialized (ctl p) = true ∧ themeToggle d = true ∧
   localStorage (win p)
   = setItem theme (initialWrite env stored).2 (mkStorage stored [])).

(** ** A sample page

    A page with every expected element, and one with most of them
    missing; the examples below run the script on them. *)

Module Sample.

Definition env : Env :=
  mkEnv (Some (λ _, false)) (lit "example.org") (lit "complete").

Definition form : Form :=
  mkForm
    [ mkInput (lit "Ann") [] true (lit "text") [] 0;
      mkInput (lit "ann@example.org ") [] true (lit "email") [] 1;
      mkInput (lit "Hello") [] false (lit "textarea") [] 2 ]
    ∅
    (Some (mkButton (lit "Send Message") false)).

Definition document : Document :=
  mkDocument
    (Some (mkLoading [lit "loading"] []))
    (Some (mkHeader [lit "header"] 64))
    (Some [lit "nav-toggle"])
    (Some [lit "nav-menu"])
    (Some form)
    true
    [ mkLink (Some (lit "#about")) (Found 900);
      mkLink (Some (lit "/blog")) NoMatch ]
    [ mkCard [] [] [] false ]
    None [] [].

(** Only the theme toggle and one link are there. *)
Definition bare : Document :=
  mkDocument None None None None None true
    [ mkLink (Some (lit "#top")) NoMatch ] [] None [] [].

Definition page : Page := load env document ∅.

End Sample.

(** ** The handlers as actions

    What one run of a listener, a timer or an observer callback does to
    the page.  Every event is a sequence of such actions (see
    [step_actions]), so what every action keeps, every run keeps. *)

Inductive action (env : Env) (p : Page) : Page → Prop :=
| ActInit : action env p (state_of (init env p))
| ActToggleMenu : action env p (state_of (toggleMobileMenu p))
| ActSmoothScroll link : action env p (state_of (handleSmoothScroll link p))
| ActToggleTheme : action env p (toggleTheme p)
| ActScrolled y : action env p (upd_win (set_pageYOffset y) p)
| ActOnScroll : action env p (onScroll p)
| ActKeydown key : action env p (state_of (onKeydown key p))
| ActMark name : action env p (mark name p)
| ActBlur i :
    action env p (onInput i (λ input errs, (validateInput input errs).2) p)
| ActType i v :
    action env p (onInput i (λ input errs, (set_value v input, errs)) p)
| ActClear i : action env p (onInput i clearValidationError p)
| ActSubmit :
    action env p
      match submitStart p with
      | Done r => state_of r
      | Awaiting originalText p1 =>
          upd_ctl (set_pending (pending (ctl p1) ++ [originalText])) p1
      end
| ActSettle originalText rest o :
    pending (ctl p) = originalText :: rest →
    action env p (submitSettled originalText o (upd_ctl (set_pending rest) p))
| ActTimer n t :
    tasks (win p) !! n = Some t →
    action env p
      (runTask t (upd_win (set_tasks (delete n (tasks (win p)))) p))
| ActIntersect i isIntersecting :
    action env p
      (upd_doc (set_cards
                  (alter (revealCard isIntersecting) i (cards (doc p)))) p).

(** The banner that a timer is about, if any. *)
Definition taskBanner (t : Task) : option nat :=
  match t with
  | AnimateIn id | SlideOut id | RemoveNotification id => Some id
  | HideLoading | LoadingGone | HeaderFrame => None
  end.

(** Every banner in the document and every banner a timer is about is
    older than the next banner to be created. *)
Definition idsFresh (p : Page) : Prop :=
  (∀ n, n ∈ notifications (doc p) → (ntf_id n < nextId (win p))%nat) ∧
  (∀ t id, t ∈ tasks (win p) → taskBanner t = Some id →
           (id < nextId (win p))%nat).

(** No parent holds more than one error element. *)
Definition errorsSingle (errs : errorStore) : Prop :=
  ∀ n l, errs !! n = Some l → (length l ≤ 1)%nat.

Definition formErrorsSingle (d : Document) : Prop :=
  ∀ f, contactForm d = Some f → errorsSingle (errorEls f).

(** What the handlers of navigation, theme and diagnostics leave alone. *)
Definition passiveView (p : Page) :=
  (header (doc p), loading (doc p), contactForm (doc p), cards (doc p),
   notifications (doc p), tasks (win p), nextId (win p), console (win p),
   StaticPages (win p), ticking (ctl p), isInitialized (ctl p),
   pending (ctl p)).

(** The actions that change nothing of [passiveView]. *)
Inductive passive (env : Env) (p : Page) : Page → Prop :=
| PasToggleMenu : passive env p (state_of (toggleMobileMenu p))
| PasSmoothScroll link : passive env p (state_of (handleSmoothScroll link p))
| PasToggleTheme : passive env p (toggleTheme p)
| PasScrolled y : passive env p (upd_win (set_pageYOffset y) p)
| PasKeydown key : passive env p (state_of (onKeydown key p))
| PasMark name : passive env p (mark name p)
| PasInitAgain :
    isInitialized (ctl p) = true → passive env p (state_of (init env p)).

(** The header has had its one update: the listener has asked for its
    frame, the frame has run (or is no longer pending), and the header is
    [h]. *)
Definition headerSettled (h : option Header) (p : Page) : Prop :=
  isInitialized (ctl p) = true ∧ ticking (ctl p) = true ∧
  (HeaderFrame ∉ tasks (win p)) ∧ header (doc p) = h.

(** The menu can be active only once the elements are cached, and the
    key listener is always there. *)
Definition keyInvariant (p : Page) : Prop :=
  listens OnKeydown p = true ∧
  (menuActive (doc p) = true → cached (ctl p) = true).

(** * Properties *)

#[local] Set Warnings "-clear-no-such-hyp".

(** ** Regular expressions: the matcher decides [Matches] *)

Module RegExpFacts.
Import RegExp.

Lemma Matches_nil_nullable r s : Matches r s → s = [] → nullable r = true.
Proof.
  induction 1 as [| | r1 r2 s1 s2 _ IH1 _ IH2 | r1 r2 s _ IH | r1 r2 s _ IH
                 | | ]; intros E; simpl; try done.
  - apply app_eq_nil in E as [-> ->]. by rewrite IH1, IH2.
  - by rewrite IH.
  - rewrite IH by done. apply orb_true_r.
Qed.

Lemma nullable_Matches r : nullable r = true ↔ Matches r [].
Proof.
  split; [| intros H; by eapply Matches_nil_nullable].
  induction r as [| | p | r1 IH1 r2 IH2 | r1 IH1 r2 IH2 | r IH]; simpl;
    intros H; try done.
  - constructor.
  - apply andb_true_iff in H as [H1 H2].
    change (@nil N) with (@nil N ++ []). constructor; auto.
  - apply orb_true_iff in H as [H | H]; [apply MAltL | apply MAltR]; auto.
  - constructor.
Qed.

Lemma deriv_complete r cs :
  Matches r cs → ∀ c s, cs = c :: s → Matches (deriv c r) s.
Proof.
  induction 1 as [| p c Hp | r1 r2 s1 s2 H1 IH1 H2 IH2 | r1 r2 s H IH
                 | r1 r2 s H IH | | r s1 s2 H1 IH1 H2 IH2];
    intros c' s' E; simpl; try done.
  - injection E as -> <-. rewrite Hp. constructor.
  - destruct s1 as [| a s1]; simpl in E.
    + apply nullable_Matches in H1 as ->. apply MAltR. by apply IH2.
    + injection E as -> <-.
      destruct (nullable r1); [apply MAltL |]; constructor; auto.
  - apply MAltL; auto.
  - apply MAltR; auto.
  - destruct s1 as [| a s1]; simpl in E.
    + by apply IH2.
    + injection E as -> <-. constructor; auto.
Qed.

Lemma deriv_sound c r : ∀ s, Matches (deriv c r) s → Matches r (c :: s).
Proof.
  induction r as [| | p | r1 IH1 r2 IH2 | r1 IH1 r2 IH2 | r IH]; simpl;
    intros s H.
  - inversion H.
  - inversion H.
  - destruct (p c) eqn:Hp; inversion H; subst. by constructor.
  - destruct (nullable r1) eqn:Hn.
    + inversion H as [| | | ? ? ? HL | ? ? ? HR | |]; subst.
      * inversion HL; subst.
        change (c :: ?a ++ ?b) with ((c :: a) ++ b). constructor; auto.
      * change (c :: s) with ([] ++ c :: s).
        constructor; [by apply nullable_Matches | auto].
    + inversion H; subst.
      change (c :: ?a ++ ?b) with ((c :: a) ++ b). constructor; auto.
  - inversion H; subst; [apply MAltL | apply MAltR]; auto.
  - inversion H; subst.
    change (c :: ?a ++ ?b) with ((c :: a) ++ b). constructor; auto.
Qed.

Lemma matchb_Matches s : ∀ r, matchb r s = true ↔ Matches r s.
Proof.
  induction s as [| c s IH]; intros r; simpl.
  - apply nullable_Matches.
  - rewrite IH. split; [apply deriv_sound |].
    intros H. by eapply deriv_complete.
Qed.

(** What [[...]*] and [[...]+] match. *)
Lemma Matches_star_class p r s :
  Matches r s → r = Star (Cls p) → Forall (λ c, p c = true) s.
Proof.
  induction 1 as [| | | | | | r' s1 s2 H1 _ _ IH2]; intros E; try done.
  injection E as ->. inversion H1; subst. constructor; auto.
Qed.

Lemma class_star_Matches p s :
  Forall (λ c, p c = true) s → Matches (Star (Cls p)) s.
Proof.
  induction 1 as [| c s Hc _ IH]; [constructor |].
  change (c :: s) with ([c] ++ s). constructor; [by constructor | done].
Qed.

Lemma Matches_plus_class p s :
  Matches (Plus (Cls p)) s ↔ s ≠ [] ∧ Forall (λ c, p c = true) s.
Proof.
  split.
  - intros H. inversion H as [| | ? ? s1 s2 H1 H2 | | | |]; subst.
    inversion H1; subst. split; [done |].
    constructor; [done |]. by eapply Matches_star_class.
  - intros [Hne H]. destruct H as [| c s Hc Hs]; [done |].
    change (c :: s) with ([c] ++ s).
    constructor; [by constructor | by apply class_star_Matches].
Qed.

Lemma Matches_char a s : Matches (Cls (N.eqb a)) s ↔ s = [a].
Proof.
  split.
  - intros H. inversion H as [| ? c Hc | | | | |]; subst.
    by apply N.eqb_eq in Hc as ->.
  - intros ->. constructor. apply N.eqb_refl.
Qed.

Lemma Matches_cat r1 r2 s :
  Matches (Cat r1 r2) s ↔ ∃ s1 s2, s = s1 ++ s2 ∧ Matches r1 s1 ∧ Matches r2 s2.
Proof.
  split.
  - intros H. inversion H; subst. eauto.
  - intros (s1 & s2 & -> & H1 & H2). by constructor.
Qed.

End RegExpFacts.

(** ** Strings *)

Example trim_both_ends : trim (lit "  ann lee ") = lit "ann lee".
Proof. reflexivity. Qed.

Example trim_line_ends : trim [10; 13; 97; 160; 65279] = [97].
Proof. reflexivity. Qed.

Example startsWith_hash :
  startsWith (lit "#") (lit "#about") = true
  ∧ startsWith (lit "#") (lit "/blog") = false.
Proof. by vm_compute. Qed.

Lemma notSpaceAt_true c : notSpaceAt c = true ↔ is_space c = false ∧ c ≠ 64.
Proof.
  unfold notSpaceAt. rewrite negb_true_iff, orb_false_iff, N.eqb_neq. tauto.
Qed.

Lemma trimStart_whitespaceOnly s : whitespaceOnly s → trimStart s = [].
Proof. induction 1 as [| c s Hc _ IH]; simpl; [done | by rewrite Hc]. Qed.

Lemma trim_whitespaceOnly s : whitespaceOnly s → trim s = [].
Proof. intros H. unfold trim. by rewrite trimStart_whitespaceOnly. Qed.

Lemma trimStart_id s :
  (∀ c, head s = Some c → is_space c = false) → trimStart s = s.
Proof. destruct s as [| c s]; simpl; [done |]. intros H. by rewrite H. Qed.

Lemma trim_no_space s : Forall (λ c, is_space c = false) s → trim s = s.
Proof.
  intros H. unfold trim, trimEnd.
  rewrite (trimStart_id s).
  2: { intros c Hc. destruct H; simplify_eq/=. done. }
  rewrite trimStart_id; [apply reverse_involutive |].
  intros c Hc. apply head_Some_elem_of in Hc. rewrite elem_of_reverse in Hc.
  rewrite Forall_forall in H. by apply H.
Qed.

(** ** The email pattern *)

Example isValidEmail_accepts :
  isValidEmail (lit "ann@example.org") = true
  ∧ isValidEmail (lit "a.b@c.d.e") = true.
Proof. by vm_compute. Qed.

Example isValidEmail_refuses :
  isValidEmail (lit "ann@example") = false
  ∧ isValidEmail (lit "ann@@example.org") = false
  ∧ isValidEmail (lit "ann lee@example.org") = false
  ∧ isValidEmail (lit "@example.org") = false
  ∧ isValidEmail (lit "ann@example.") = false.
Proof. by vm_compute. Qed.

Lemma email_part_plus s :
  RegExp.Matches (RegExp.Plus (RegExp.Cls notSpaceAt)) s ↔ email_part s.
Proof.
  rewrite RegExpFacts.Matches_plus_class. unfold email_part.
  apply and_iff_compat_l. apply Forall_iff. intros c. apply notSpaceAt_true.
Qed.

(** The pattern of [isValidEmail] accepts exactly the strings of the
    shape the specification describes. *)
Lemma isValidEmail_shape s : isValidEmail s = true ↔ email_shape s.
Proof.
  unfold isValidEmail, emailPattern, email_shape.
  rewrite RegExpFacts.matchb_Matches.
  split.
  - intros H.
    apply RegExpFacts.Matches_cat in H as (l & ? & -> & Hl & H).
    apply RegExpFacts.Matches_cat in H as (? & ? & -> & Ha & H).
    apply RegExpFacts.Matches_cat in H as (d & ? & -> & Hd & H).
    apply RegExpFacts.Matches_cat in H as (? & t & -> & Hdot & Ht).
    apply RegExpFacts.Matches_char in Ha as ->.
    apply RegExpFacts.Matches_char in Hdot as ->.
    apply email_part_plus in Hl, Hd, Ht. by exists l, d, t.
  - intros (l & d & t & Hl & Hd & Ht & ->).
    apply email_part_plus in Hl, Hd, Ht.
    repeat (constructor; [done || by apply RegExpFacts.Matches_char |]).
    done.
Qed.

Lemma email_shape_no_space s :
  email_shape s → Forall (λ c, is_space c = false) s.
Proof.
  intros (l & d & t & [_ Hl] & [_ Hd] & [_ Ht] & ->).
  repeat (apply Forall_app; split);
    try (eapply Forall_impl; [eassumption | by intros ? [? ?]]);
    by repeat constructor.
Qed.

(** ** Form validation *)

Lemma nonempty_true s : nonempty s = true ↔ s ≠ [].
Proof. by destruct s. Qed.

Lemma errorsOf_clear input errs :
  errorsOf (set_borderColor [] input) (alter tail (parentNode input) errs)
  = tail (errorsOf input errs).
Proof.
  unfold errorsOf; simpl. rewrite lookup_alter_eq.
  by destruct (errs !! parentNode input).
Qed.

Lemma head_showValidationError input message errs :
  let r := showValidationError input message errs in
  borderColor r.1 = lit "#dc3545" ∧
  err_textContent <$> head (errorsOf r.1 r.2) = Some message.
Proof.
  unfold showValidationError. split; [done |]. simpl.
  destruct (errorsOf input errs); unfold errorsOf; simpl;
    by rewrite lookup_insert_eq.
Qed.

(** The three outcomes of [validateInput], by what it reads. *)
Lemma validateInput_required input errs :
  required input = true → trim (value input) = [] →
  reports input errs (Some msgRequired).
Proof.
  intros Hr Hv. unfold reports, validateInput; simpl.
  rewrite Hr, Hv; simpl.
  pose proof (head_showValidationError (set_borderColor [] input) msgRequired
                (alter tail (parentNode input) errs)) as H.
  split_and!; [done | done | apply H].
Qed.

Lemma validateInput_bad_email input errs :
  ¬ (required input = true ∧ trim (value input) = []) →
  type input = lit "email" → trim (value input) ≠ [] →
  isValidEmail (trim (value input)) = false →
  reports input errs (Some msgEmail).
Proof.
  intros _ Ht Hv He. unfold reports, validateInput; simpl.
  apply nonempty_true in Hv. rewrite Hv, He, andb_false_r, Ht; simpl.
  pose proof (head_showValidationError (set_borderColor [] input) msgEmail
                (alter tail (parentNode input) errs)) as H.
  split_and!; [done | done | apply H].
Qed.

Lemma validateInput_accepts input errs :
  (required input = true → trim (value input) ≠ []) →
  (type input = lit "email" → trim (value input) ≠ [] →
   isValidEmail (trim (value input)) = true) →
  reports input errs None.
Proof.
  intros Hr He. unfold reports, validateInput; simpl.
  assert (required input && negb (nonempty (trim (value input))) = false)
    as ->.
  { destruct (required input); [| done]; simpl.
    apply negb_false_iff, nonempty_true. auto. }
  assert (bool_decide (type input = lit "email")
          && nonempty (trim (value input))
          && negb (isValidEmail (trim (value input))) = false) as ->.
  { case_bool_decide as Ht; [| done]; simpl.
    destruct (nonempty (trim (value input))) eqn:Hv; [| done]; simpl.
    apply nonempty_true in Hv. by rewrite He. }
  split_and!; [done | done | apply errorsOf_clear].
Qed.

(** C1 (as amended): with [v] the value of the field after trimming, a
    required field with empty [v] is refused with the "required" message;
    otherwise an email field with non-empty [v] that has not the email
    shape is refused with the "invalid email" message; and an email
    field with non-empty [v] of that shape passes, and the error element
    shown before beside it is removed. *)
Theorem validateInput_rules input errs o :
  rule input (trim (value input)) o → reports input errs o.
Proof.
  destruct 1 as [Hr Hv | Hn Ht Hv He | Ht Hv He].
  - by apply validateInput_required.
  - apply validateInput_bad_email; try done.
    destruct (isValidEmail _) eqn:E; [| done].
    by apply isValidEmail_shape in E.
  - apply validateInput_accepts; [done |].
    intros _ _. by apply isValidEmail_shape.
Qed.

Lemma validateInput_rules_witness :
  let input := mkInput (lit "  ann@example.org ") [] true (lit "email")
                       (lit "#dc3545") 0 in
  let errs : errorStore := {[ 0%nat := [mkErrorEl errorCss msgEmail] ]} in
  rule input (trim (value input)) None ∧ reports input errs None.
Proof.
  assert (rule (mkInput (lit "  ann@example.org ") [] true (lit "email")
                        (lit "#dc3545") 0)
               (trim (lit "  ann@example.org ")) None) as H.
  { apply RuleValidEmail; [reflexivity | vm_compute; discriminate |].
    apply isValidEmail_shape. vm_compute. reflexivity. }
  split; [exact H |].
  exact (validateInput_rules _ _ None H).
Defined.

(** Two of the three rules also hold of the value as the user left it:
    an empty value trims to itself, and so does a value of the email
    shape, which has no whitespace at all. *)
Lemma validateInput_as_typed input errs o :
  match o with Some message => message = msgRequired | None => True end →
  rule input (value input) o → reports input errs o.
Proof.
  intros Ho H.
  destruct H as [Hr Hv | Hn Ht Hv He | Ht Hv He].
  - apply validateInput_required; [done |]. by rewrite Hv.
  - vm_compute in Ho. discriminate Ho.
  - pose proof (trim_no_space _ (email_shape_no_space _ He)) as E.
    apply validateInput_accepts; rewrite E; [done |].
    intros _ _. by apply isValidEmail_shape.
Qed.

(** C1 as stated fails: an email field whose value is an address with a
    space on either side is not empty and has not the email shape, so the
    rule asks for the "invalid email" refusal; [validateInput] trims the
    value and accepts it. *)
Lemma validateInput_untrimmed_counterexample :
  let input := mkInput (lit " ann@example.org ") [] false (lit "email") [] 0 in
  rule input (value input) (Some msgEmail) ∧
  (validateInput input ∅).1 = true ∧
  ¬ reports input ∅ (Some msgEmail).
Proof.
  split_and!.
  - apply RuleEmail; simpl; [by intros [? _] | reflexivity | discriminate |].
    intros H. apply isValidEmail_shape in H. vm_compute in H. discriminate.
  - vm_compute. reflexivity.
  - vm_compute. by intros [? _].
Qed.

(** C9: a required field whose value is only whitespace is treated as
    empty and refused with the "required" message; an email field that
    is not required and whose value is empty or only whitespace passes,
    with no error shown. *)
Theorem validateInput_whitespace input errs :
  whitespaceOnly (value input) →
  (required input = true → reports input errs (Some msgRequired)) ∧
  (required input = false → type input = lit "email" →
   reports input errs None).
Proof.
  intros Hw. apply trim_whitespaceOnly in Hw. split.
  - intros Hr. by apply validateInput_required.
  - intros Hr _. apply validateInput_accepts; [by rewrite Hr |].
    by rewrite Hw.
Qed.

Lemma validateInput_whitespace_witness :
  let blank := lit "   " in
  let name := mkInput blank [] true (lit "text") [] 0 in
  let mail := mkInput blank [] false (lit "email") [] 1 in
  whitespaceOnly blank ∧
  reports name ∅ (Some msgRequired) ∧ reports mail ∅ None.
Proof.
  assert (whitespaceOnly (lit "   ")) as H.
  { repeat constructor. }
  split; [exact H |]. split.
  - exact (proj1 (validateInput_whitespace
                    (mkInput (lit "   ") [] true (lit "text") [] 0) ∅ H)
                 eq_refl).
  - exact (proj2 (validateInput_whitespace
                    (mkInput (lit "   ") [] false (lit "email") [] 1) ∅ H)
                 eq_refl eq_refl).
Defined.

(** ** Theme *)

Lemma toggleTheme_dataTheme p :
  dataTheme (doc (toggleTheme p))
  = Some (if bool_decide (dataTheme (doc p) = Some dark) then light else dark).
Proof. done. Qed.

Lemma toggleTheme_persisted p :
  persistedTheme (toggleTheme p) = dataTheme (doc (toggleTheme p)).
Proof.
  unfold persistedTheme, toggleTheme, setTheme, getItem, setItem; simpl.
  by rewrite lookup_insert_eq.
Qed.

(** C4 (as amended): toggling twice brings the theme attribute and the
    persisted theme back to what they were exactly when both held the
    same supported theme, light or dark, to begin with. *)
Theorem toggleTheme_twice p :
  let p2 := toggleTheme (toggleTheme p) in
  dataTheme (doc p2) = dataTheme (doc p) ∧
  persistedTheme p2 = persistedTheme p
  ↔ ∃ t, supported t ∧ dataTheme (doc p) = Some t ∧ persistedTheme p = Some t.
Proof.
  simpl. rewrite toggleTheme_persisted, !toggleTheme_dataTheme.
  unfold supported.
  destruct (dataTheme (doc p)) as [t |] eqn:Ht; repeat case_bool_decide;
    simplify_eq; split; try naive_solver.
  all: intros [H1 H2]; simplify_eq; eauto.
Qed.

(** C4 as stated fails: with an unsupported theme persisted by an earlier
    visit, startup applies it, and two clicks on the toggle leave the
    attribute and the persisted value at light. *)
Lemma toggleTheme_twice_counterexample :
  let env := mkEnv (Some (λ _, false)) (lit "example.org") (lit "complete") in
  let d := mkDocument None None None None None true [] [] None [] [] in
  let p := load env d {[ theme := lit "blue" ]} in
  let p2 := run env [ClickThemeToggle; ClickThemeToggle] p in
  dataTheme (doc p) = Some (lit "blue") ∧
  persistedTheme p = Some (lit "blue") ∧
  dataTheme (doc p2) = Some light ∧
  persistedTheme p2 = Some light ∧
  ¬ (dataTheme (doc p2) = dataTheme (doc p) ∧
     persistedTheme p2 = persistedTheme p).
Proof. vm_compute. split_and!; try reflexivity. by intros [? _]. Qed.

(** C7 (as amended): when the theme toggle is present, startup applies
    the persisted theme if there is one and it is not the empty string,
    else dark when the system prefers dark, else light; what it applies
    is light or dark exactly when the persisted value is absent, empty,
    light or dark. *)
Theorem setupThemeToggle_resolution env p :
  elements_themeToggle p = true →
  ∃ t, dataTheme (doc (setupThemeToggle env p)) = Some t ∧
       resolved (persistedTheme p) (systemPrefersDark env) t ∧
       (supported t ↔
        persistedTheme p = None ∨ persistedTheme p = Some [] ∨
        persistedTheme p = Some light ∨ persistedTheme p = Some dark).
Proof.
  intros Hp. unfold setupThemeToggle. rewrite Hp; simpl.
  fold (persistedTheme p).
  exists (initialTheme (persistedTheme p) (systemPrefersDark env)).
  split.
  { unfold addEventListener. by case_bool_decide. }
  unfold supported.
  destruct (persistedTheme p) as [[| c s] |]; simpl.
  - destruct (systemPrefersDark env); (split; [| naive_solver]).
    + apply FromSystem; auto.
    + apply FromDefault; auto.
  - split; [by eapply FromStorage |]. split.
    + intros [-> | ->]; auto.
    + intros [? | [? | [H | H]]]; try done;
        apply (inj Some) in H; rewrite H; [by left | by right].
  - destruct (systemPrefersDark env); (split; [| naive_solver]).
    + apply FromSystem; auto.
    + apply FromDefault; auto.
Qed.

Lemma setupThemeToggle_resolution_witness :
  let env := mkEnv (Some (λ _, true)) (lit "example.org") (lit "complete") in
  let d := mkDocument None None None None None true [] [] None [] [] in
  let p := cacheElements (newPage d ∅) in
  elements_themeToggle p = true ∧
  ∃ t, dataTheme (doc (setupThemeToggle env p)) = Some t ∧
       resolved (persistedTheme p) (systemPrefersDark env) t ∧
       (supported t ↔
        persistedTheme p = None ∨ persistedTheme p = Some [] ∨
        persistedTheme p = Some light ∨ persistedTheme p = Some dark).
Proof.
  split; [reflexivity |].
  exact (setupThemeToggle_resolution
           (mkEnv (Some (λ _, true)) (lit "example.org") (lit "complete"))
           (cacheElements
              (newPage (mkDocument None None None None None true [] [] None
                                   [] []) ∅))
           eq_refl).
Defined.

(** C7 as stated fails twice over.  A persisted theme that is neither
    light nor dark is applied as it is; and a persisted empty string,
    though it exists, is passed over for the system preference. *)
Lemma setupThemeToggle_counterexample :
  let env := mkEnv (Some (λ _, true)) (lit "example.org") (lit "complete") in
  let d := mkDocument None None None None None true [] [] None [] [] in
  (dataTheme (doc (load env d {[ theme := lit "blue" ]})) = Some (lit "blue")
   ∧ ¬ supported (lit "blue")) ∧
  (dataTheme (doc (load env d {[ theme := [] ]})) = Some dark
   ∧ dark ≠ []).
Proof.
  split_and!; try (vm_compute; reflexivity); [| done].
  by intros [? | ?].
Qed.

(** ** Form submission *)

Lemma validateInput_validates input errs :
  (validateInput input errs).1 = validates input.
Proof.
  unfold validates, validateInput; simpl.
  by repeat destruct (_ && _).
Qed.

Lemma validateInput_value input errs :
  value (validateInput input errs).2.1 = value input.
Proof.
  unfold validateInput; simpl. by repeat destruct (_ && _).
Qed.

Lemma validateRequired_passes ins : ∀ errs,
  (validateRequired ins errs).1
  = forallb (λ input, implb (required input) (validates input)) ins.
Proof.
  induction ins as [| input ins IH]; intros errs; simpl; [done |].
  destruct (required input); simpl.
  - pose proof (validateInput_validates input errs) as Hv.
    destruct (validateInput input errs) as [ok [input' errs1]].
    specialize (IH errs1).
    destruct (validateRequired ins errs1) as [ok' [ins' errs2]].
    simpl in *. by rewrite Hv, IH.
  - specialize (IH errs).
    by destruct (validateRequired ins errs) as [ok' [ins' errs2]].
Qed.

Lemma validateRequired_values ins : ∀ errs,
  value <$> (validateRequired ins errs).2.1 = value <$> ins.
Proof.
  induction ins as [| input ins IH]; intros errs; simpl; [done |].
  destruct (required input).
  - pose proof (validateInput_value input errs) as Hv.
    destruct (validateInput input errs) as [ok [input' errs1]].
    specialize (IH errs1).
    destruct (validateRequired ins errs1) as [ok' [ins' errs2]].
    cbn [fst snd] in *. by rewrite fmap_cons, Hv, IH.
  - specialize (IH errs).
    destruct (validateRequired ins errs) as [ok' [ins' errs2]].
    cbn [fst snd] in *. by rewrite fmap_cons, IH.
Qed.

Lemma requiredFieldsPass_validateRequired f :
  requiredFieldsPass f → (validateRequired (inputs f) (errorEls f)).1 = true.
Proof.
  intros H. rewrite validateRequired_passes. apply forallb_forall.
  intros input Hin. apply list_elem_of_In in Hin.
  unfold requiredFieldsPass in H. rewrite Forall_forall in H.
  specialize (H input Hin). destruct (required input); simpl; auto.
Qed.

(** With valid fields and a submit control, [handleFormSubmit] gets to
    its [await] with the button disabled and relabelled. *)
Lemma submitStart_awaits p f btn :
  elements_contactForm p = Some f → submitBtn f = Some btn →
  requiredFieldsPass f →
  ∃ ins errs,
    value <$> ins = value <$> inputs f ∧
    submitStart p
    = Awaiting (btn_textContent btn)
        (setForm (mkForm ins errs (Some (mkButton (lit "Sending...") true)))
           (setForm (mkForm ins errs (submitBtn f)) p)).
Proof.
  intros Hf Hb Hv. unfold submitStart. rewrite Hf.
  pose proof (requiredFieldsPass_validateRequired f Hv) as Hok.
  pose proof (validateRequired_values (inputs f) (errorEls f)) as Hval.
  destruct (validateRequired (inputs f) (errorEls f)) as [ok [ins errs]].
  simpl in *. subst ok. simpl. rewrite Hb. eauto.
Qed.

(** After the response, whatever it is, the button has its label back
    and is enabled; unless the response is a success, the fields keep
    their values and the failure banner replaces any earlier banner. *)
Lemma submitSettled_outcome originalText o p f btn :
  contactForm (doc p) = Some f → submitBtn f = Some btn →
  ∃ f', contactForm (doc (submitSettled originalText o p)) = Some f' ∧
        submitBtn f' = Some (mkButton originalText false) ∧
        (succeeded o = false → failureShown p f (submitSettled originalText o p) f').
Proof.
  intros Hf Hb. unfold submitSettled, failureShown.
  destruct (succeeded o); simpl; unfold mapForm; simpl; rewrite Hf; simpl.
  - eexists; split; [done |]. simpl. rewrite Hb. done.
  - eexists; split; [done |]. simpl. rewrite Hb. done.
Qed.

Lemma handleFormSubmit_outcome o p f btn :
  elements_contactForm p = Some f → submitBtn f = Some btn →
  requiredFieldsPass f →
  ∃ p' f',
    handleFormSubmit o p = Ok p' ∧ contactForm (doc p') = Some f' ∧
    buttonRestored btn f' ∧
    (succeeded o = false → failureShown p f p' f').
Proof.
  intros Hf Hb Hv.
  destruct (submitStart_awaits p f btn Hf Hb Hv) as (ins & errs & Hval & Hs).
  unfold handleFormSubmit. rewrite Hs.
  edestruct (submitSettled_outcome (btn_textContent btn) o) as (f' & H1 & H2 & H3);
    [| | eexists _, f'; split; [done |]; split; [exact H1 |]; split; [exact H2 |]].
  - done.
  - done.
  - intros Ho. destruct (H3 Ho) as [H4 H5]. split.
    + by rewrite H4.
    + by rewrite H5.
Qed.

Lemma failed_not_succeeded o : failed o → succeeded o = false.
Proof.
  destruct o as [| ok [| data]]; simpl; try done.
  intros ->. by destruct (getProperty data _).
Qed.

Lemma not_indicated_not_succeeded ok data :
  ¬ indicatesSuccess data → succeeded (Response ok (Json data)) = false.
Proof.
  intros H. simpl.
  destruct (getProperty data (lit "success")) as [[v |] |] eqn:E; [| | done].
  - destruct (truthy (Some v)) eqn:Ht; [| apply andb_false_r].
    destruct H. by exists v.
  - apply andb_false_r.
Qed.

(** C2: when the form and its submit control are there and every
    required field passes validation, the handler returns without
    throwing and the submit control has its original label and is enabled
    again, whatever the response; and if the relay answers with a failing
    status, or no answer comes, the fields keep their values and the
    failure notification is shown. *)
Theorem handleFormSubmit_failure o p f btn :
  elements_contactForm p = Some f → submitBtn f = Some btn →
  requiredFieldsPass f →
  ∃ p' f',
    handleFormSubmit o p = Ok p' ∧ contactForm (doc p') = Some f' ∧
    buttonRestored btn f' ∧
    (failed o → failureShown p f p' f').
Proof.
  intros Hf Hb Hv.
  destruct (handleFormSubmit_outcome o p f btn Hf Hb Hv)
    as (p' & f' & H1 & H2 & H3 & H4).
  exists p', f'. split_and!; try done.
  intros Ho. by apply H4, failed_not_succeeded.
Qed.

Lemma indicated_succeeded data :
  indicatesSuccess data → succeeded (Response true (Json data)) = true.
Proof. intros (v & E & Ht). simpl. by rewrite E. Qed.

Lemma validateInput_defaultValue input errs :
  defaultValue (validateInput input errs).2.1 = defaultValue input.
Proof.
  unfold validateInput; simpl. by repeat destruct (_ && _).
Qed.

Lemma validateRequired_defaults ins : ∀ errs,
  defaultValue <$> (validateRequired ins errs).2.1 = defaultValue <$> ins.
Proof.
  induction ins as [| input ins IH]; intros errs; simpl; [done |].
  destruct (required input).
  - pose proof (validateInput_defaultValue input errs) as Hv.
    destruct (validateInput input errs) as [ok [input' errs1]].
    specialize (IH errs1).
    destruct (validateRequired ins errs1) as [ok' [ins' errs2]].
    cbn [fst snd] in *. by rewrite fmap_cons, Hv, IH.
  - specialize (IH errs).
    destruct (validateRequired ins errs) as [ok' [ins' errs2]].
    cbn [fst snd] in *. by rewrite fmap_cons, IH.
Qed.

(** When the response counts as a success, the fields are reset and the
    success banner is shown. *)
Lemma handleFormSubmit_sent o p f btn :
  elements_contactForm p = Some f → submitBtn f = Some btn →
  requiredFieldsPass f → succeeded o = true →
  ∃ p' f',
    handleFormSubmit o p = Ok p' ∧ contactForm (doc p') = Some f' ∧
    successShown p f p' f'.
Proof.
  intros Hf Hb Hv Ho. unfold handleFormSubmit, submitStart. rewrite Hf.
  pose proof (requiredFieldsPass_validateRequired f Hv) as Hok.
  pose proof (validateRequired_defaults (inputs f) (errorEls f)) as Hdef.
  destruct (validateRequired (inputs f) (errorEls f)) as [ok [ins errs]].
  simpl in *. subst ok. simpl. rewrite Hb.
  unfold submitSettled, successShown. rewrite Ho.
  unfold mapForm; simpl.
  eexists _, _. split; [done |]. split; [done |]. simpl.
  split; [| done].
  rewrite <- Hdef, <- list_fmap_compose. done.
Qed.

(** The two banners differ, so a submission is never shown both as sent
    and as failed. *)
Lemma successShown_not_failureShown p f p' f' :
  successShown p f p' f' → ¬ failureShown p f p' f'.
Proof.
  intros [_ Hs] [_ Hf]. rewrite Hs in Hf.
  apply app_inv_head in Hf. by vm_compute in Hf.
Qed.

(** C10 (as amended): when the relay answers with a success status and
    a JSON body, the handler returns; if the body's success indicator
    does not count as true in a condition (it is false, null, zero, the
    empty string or missing, or the body is no object), the submission
    is a failure: the failure notification is shown and the fields keep
    their values.  If the indicator counts as true, whatever its type,
    the submission is a success: the fields are reset, the success
    notification is shown and not the failure notification. *)
Theorem handleFormSubmit_body_not_success data p f btn :
  elements_contactForm p = Some f → submitBtn f = Some btn →
  requiredFieldsPass f →
  ∃ p' f',
    handleFormSubmit (Response true (Json data)) p = Ok p' ∧
    contactForm (doc p') = Some f' ∧
    (¬ indicatesSuccess data → failureShown p f p' f') ∧
    (indicatesSuccess data →
     successShown p f p' f' ∧ ¬ failureShown p f p' f').
Proof.
  intros Hf Hb Hv.
  destruct (succeeded (Response true (Json data))) eqn:Ho.
  - destruct (handleFormSubmit_sent _ p f btn Hf Hb Hv Ho)
      as (p' & f' & H1 & H2 & H3).
    exists p', f'. split_and!; [done | done | |].
    + intros Hd. apply (not_indicated_not_succeeded true) in Hd. congruence.
    + intros _. split; [done |]. by apply successShown_not_failureShown.
  - destruct (handleFormSubmit_outcome (Response true (Json data)) p f btn
                Hf Hb Hv) as (p' & f' & H1 & H2 & H3 & H4).
    exists p', f'. split_and!; [done | done | auto |].
    intros Hd. apply indicated_succeeded in Hd. congruence.
Qed.

(** C10 as stated fails: the relay answers with a success status and
    the body [{"success": "false"}]; the indicator is a string, not
    [true], yet it counts as true in the condition, so the fields are
    cleared and the success notification is shown, not the failure
    notification. *)
Lemma handleFormSubmit_truthy_counterexample :
  let data := JObject [(lit "success", JString (lit "false"))] in
  let p' := state_of (handleFormSubmit (Response true (Json data))
                                       Sample.page) in
  ¬ successIsTrue data ∧
  elements_contactForm Sample.page = Some Sample.form ∧
  (value <$> inputs Sample.form)
  = [lit "Ann"; lit "ann@example.org "; lit "Hello"] ∧
  handleFormSubmit (Response true (Json data)) Sample.page = Ok p' ∧
  (ntf_textContent <$> notifications (doc p')) = [msgSent] ∧
  ∃ f', contactForm (doc p') = Some f' ∧
        (value <$> inputs f') = [[]; []; []] ∧
        ¬ failureShown Sample.page Sample.form p' f'.
Proof.
  cbv zeta. split_and!.
  - intros H. vm_compute in H. discriminate H.
  - reflexivity.
  - reflexivity.
  - by vm_compute.
  - by vm_compute.
  - eexists. split; [by vm_compute |]. split; [by vm_compute |].
    intros [H _]. vm_compute in H. discriminate H.
Qed.

(** ** How the primitives change the page *)

Lemma doc_mark n p : doc (mark n p) = doc p.
Proof. unfold mark. by case_bool_decide. Qed.

Lemma win_mark n p : win (mark n p) = win p.
Proof. unfold mark. by case_bool_decide. Qed.

Lemma listens_addEventListener l l' p :
  listens l (addEventListener l' p) = bool_decide (l = l') || listens l p.
Proof.
  unfold listens, addEventListener.
  destruct (decide (l' ∈ listeners (win p))) as [Hin | Hin].
  - rewrite (bool_decide_eq_true_2 _ Hin).
    destruct (decide (l = l')) as [-> | E].
    + rewrite (bool_decide_eq_true_2 (l' = l')) by done.
      by apply bool_decide_eq_true.
    + by rewrite (bool_decide_eq_false_2 (l = l')).
  - rewrite (bool_decide_eq_false_2 _ Hin); simpl.
    apply eq_true_iff_eq.
    rewrite orb_true_iff, !bool_decide_eq_true, elem_of_app,
      list_elem_of_singleton.
    tauto.
Qed.

Lemma onlyListeners_refl p : onlyListeners p p.
Proof. by repeat split. Qed.

Lemma onlyListeners_trans p q r :
  onlyListeners p q → onlyListeners q r → onlyListeners p r.
Proof.
  intros (H1 & H2 & H3 & H4 & H5) (G1 & G2 & G3 & G4 & G5).
  repeat split; try congruence. auto.
Qed.

Lemma onlyListeners_addEventListener l p :
  onlyListeners p (addEventListener l p).
Proof.
  repeat split; try (unfold addEventListener; by case_bool_decide).
  intros l' H. rewrite listens_addEventListener, H. apply orb_true_r.
Qed.

Lemma bindNavLinks_onlyListeners links : ∀ i p,
  onlyListeners p (state_of (bindNavLinks i links p)).
Proof.
  induction links as [| link links IH]; intros i p; simpl.
  - apply onlyListeners_refl.
  - destruct (href link) as [h |]; [| apply onlyListeners_refl].
    eapply onlyListeners_trans; [| apply IH].
    destruct (startsWith (lit "#") h);
      [apply onlyListeners_addEventListener | apply onlyListeners_refl].
Qed.

Lemma bindInputs_onlyListeners ins : ∀ i p,
  onlyListeners p (bindInputs i ins p).
Proof.
  induction ins as [| input ins IH]; intros i p; simpl.
  - apply onlyListeners_refl.
  - eapply onlyListeners_trans; [| apply IH].
    eapply onlyListeners_trans; apply onlyListeners_addEventListener.
Qed.

Lemma setupFormHandling_onlyListeners p :
  onlyListeners p (setupFormHandling p).
Proof.
  unfold setupFormHandling.
  destruct (elements_contactForm p); [| apply onlyListeners_refl].
  eapply onlyListeners_trans; [apply onlyListeners_addEventListener |].
  apply bindInputs_onlyListeners.
Qed.

Lemma setupStep_refl p : setupStep p p.
Proof. by repeat split. Qed.

Lemma setupStep_trans p q r : setupStep p q → setupStep q r → setupStep p r.
Proof.
  intros (H1 & H2 & H3 & H4 & H5) (G1 & G2 & G3 & G4 & G5).
  repeat split; try congruence. auto.
Qed.

Lemma onlyListeners_setupStep p q : onlyListeners p q → setupStep p q.
Proof.
  intros (H1 & H2 & H3 & H4 & H5). unfold setupStep.
  rewrite H1, H2. by repeat split.
Qed.

Lemma setupStep_mark n p : setupStep p (mark n p).
Proof.
  unfold mark. case_bool_decide; [apply setupStep_refl |]. by repeat split.
Qed.

(** *** [setupNavigation] *)

Lemma bindNavLinks_other l links : ∀ i p,
  (∀ k, l ≠ OnNavLinkClick k) →
  listens l (state_of (bindNavLinks i links p)) = listens l p.
Proof.
  induction links as [| link links IH]; intros i p Hl; simpl; [done |].
  destruct (href link) as [h |]; [| done].
  rewrite IH by done.
  destruct (startsWith (lit "#") h); [| done].
  rewrite listens_addEventListener.
  by rewrite bool_decide_eq_false_2.
Qed.

Lemma bindNavLinks_Ok links : ∀ i p,
  Forall (λ link, is_Some (href link)) links →
  bindNavLinks i links p = Ok (state_of (bindNavLinks i links p)).
Proof.
  induction links as [| link links IH]; intros i p H; simpl; [done |].
  inversion H as [| ? ? [h Hh] H']; subst. rewrite Hh. by apply IH.
Qed.

Lemma bindNavLinks_listens links : ∀ i p j link h,
  Forall (λ link, is_Some (href link)) links →
  links !! j = Some link → href link = Some h →
  startsWith (lit "#") h = true →
  listens (OnNavLinkClick (i + j)) (state_of (bindNavLinks i links p)) = true.
Proof.
  induction links as [| link0 links IH]; intros i p j link h Hall Hj Hh Hs;
    [done |].
  inversion Hall as [| ? ? [h0 Hh0] Hall']; subst. simpl. rewrite Hh0.
  destruct j as [| j]; simpl in Hj.
  - injection Hj as ->. rewrite Hh in Hh0. injection Hh0 as <-.
    rewrite Hs, Nat.add_0_r.
    apply (bindNavLinks_onlyListeners links (S i)).
    rewrite listens_addEventListener. by rewrite bool_decide_eq_true_2.
  - replace (i + S j)%nat with (S i + j)%nat by lia. by eapply IH.
Qed.

Lemma setupNavigation_setupStep p :
  setupStep p (state_of (setupNavigation p)).
Proof.
  unfold setupNavigation.
  set (p1 := if _ && _ then _ else p).
  assert (onlyListeners p p1) as H1.
  { subst p1. destruct (_ && _);
      [apply onlyListeners_addEventListener | apply onlyListeners_refl]. }
  apply onlyListeners_setupStep in H1.
  destruct (elements_navLinks p1) as [links |]; [| done].
  pose proof (bindNavLinks_onlyListeners links 0 p1) as H2.
  apply onlyListeners_setupStep in H2.
  eapply setupStep_trans; [exact H1 |].
  destruct (bindNavLinks 0 links p1) as [p2 | e p2]; simpl in *; [| done].
  eapply setupStep_trans; [exact H2 |].
  destruct (present (elements_header p2)); [| apply setupStep_refl].
  eapply setupStep_trans;
    [| apply onlyListeners_setupStep, onlyListeners_addEventListener].
  by repeat split.
Qed.

(** [setupNavigation] touches neither the document nor what is stored
    or scheduled. *)
Lemma setupNavigation_frame p :
  let q := state_of (setupNavigation p) in
  doc q = doc p ∧ localStorage (win q) = localStorage (win p) ∧
  tasks (win q) = tasks (win p) ∧ console (win q) = console (win p).
Proof.
  unfold setupNavigation.
  set (p1 := if _ && _ then _ else p).
  assert (doc p1 = doc p ∧ localStorage (win p1) = localStorage (win p) ∧
          tasks (win p1) = tasks (win p) ∧ console (win p1) = console (win p))
    as (D1 & S1 & T1 & C1).
  { subst p1. destruct (_ && _); [| done].
    unfold addEventListener. by case_bool_decide. }
  destruct (elements_navLinks p1) as [links |]; [| done].
  assert (∀ i q, doc (state_of (bindNavLinks i links q)) = doc q ∧
                 localStorage (win (state_of (bindNavLinks i links q)))
                 = localStorage (win q) ∧
                 tasks (win (state_of (bindNavLinks i links q)))
                 = tasks (win q) ∧
                 console (win (state_of (bindNavLinks i links q)))
                 = console (win q)) as HB.
  { clear. induction links as [| link links IH]; intros i q; simpl; [done |].
    destruct (href link) as [h |]; [| done].
    destruct (IH (S i) (if startsWith (lit "#") h
                        then addEventListener (OnNavLinkClick i) q else q))
      as (-> & -> & -> & ->).
    destruct (startsWith _ h); [| done].
    unfold addEventListener. by case_bool_decide. }
  destruct (HB 0%nat p1) as (D2 & S2 & T2 & C2).
  destruct (bindNavLinks 0 links p1) as [p2 | e p2]; simpl in *;
    [| by rewrite D2, S2, T2, C2].
  destruct (present (elements_header p2)); [| by rewrite D2, S2, T2, C2].
  unfold addEventListener. case_bool_decide; simpl;
    by rewrite D2, S2, T2, C2.
Qed.

(** The listener of the menu toggle is there afterwards exactly if it was
    there before or both elements are in the cache. *)
Lemma setupNavigation_toggle p :
  listens OnNavToggleClick (state_of (setupNavigation p))
  = listens OnNavToggleClick p
    || present (elements_navToggle p) && present (elements_navMenu p).
Proof.
  unfold setupNavigation.
  set (p1 := if _ && _ then _ else p).
  assert (listens OnNavToggleClick p1
          = listens OnNavToggleClick p
            || present (elements_navToggle p) && present (elements_navMenu p))
    as <-.
  { subst p1. destruct (_ && _).
    - rewrite listens_addEventListener.
      rewrite bool_decide_eq_true_2 by done. by rewrite orb_true_r.
    - by rewrite orb_false_r. }
  destruct (elements_navLinks p1) as [links |]; [| done].
  pose proof (bindNavLinks_other OnNavToggleClick links 0 p1) as H.
  destruct (bindNavLinks 0 links p1) as [p2 | e p2]; simpl in *;
    [| by apply H].
  rewrite <- H by done.
  destruct (present (elements_header p2)); [| done].
  rewrite listens_addEventListener. by rewrite bool_decide_eq_false_2.
Qed.

(** *** [setupThemeToggle] *)

Lemma setupThemeToggle_setupStep env p :
  setupStep p (setupThemeToggle env p).
Proof.
  unfold setupThemeToggle.
  destruct (elements_themeToggle p); simpl; [| apply setupStep_refl].
  eapply setupStep_trans;
    [| apply onlyListeners_setupStep, onlyListeners_addEventListener].
  by repeat split.
Qed.

Lemma setupThemeToggle_listens env l p :
  listens l (setupThemeToggle env p)
  = listens l p
    || elements_themeToggle p && bool_decide (l = OnThemeToggleClick).
Proof.
  unfold setupThemeToggle.
  destruct (elements_themeToggle p); simpl; [| by rewrite orb_false_r].
  rewrite listens_addEventListener. apply orb_comm.
Qed.

Lemma setupThemeToggle_effect env p :
  let q := setupThemeToggle env p in
  let t := initialTheme (persistedTheme p) (systemPrefersDark env) in
  cards (doc q) = cards (doc p) ∧ tasks (win q) = tasks (win p) ∧
  console (win q) = console (win p) ∧
  if elements_themeToggle p
  then dataTheme (doc q) = Some t ∧
       localStorage (win q) = setItem theme t (localStorage (win p))
  else q = p.
Proof.
  unfold setupThemeToggle.
  destruct (elements_themeToggle p); simpl; [| done].
  unfold addEventListener. by case_bool_decide.
Qed.

(** *** [setupScrollEffects] *)

Lemma setupScrollEffects_effect env p :
  let q := state_of (setupScrollEffects env p) in
  win q = win p ∧ ctl q = ctl p ∧ docCore (doc q) = docCore (doc p) ∧
  dataTheme (doc q) = dataTheme (doc p) ∧
  ∀ mm, matchMedia env = Some mm →
        setupScrollEffects env p = Ok q ∧
        cards (doc q)
        = if mm (lit "(prefers-reduced-motion: reduce)") then cards (doc p)
          else hideCard <$> cards (doc p).
Proof.
  unfold setupScrollEffects.
  destruct (matchMedia env) as [mm |]; simpl; [| done].
  destruct (mm _) eqn:E; simpl; split_and!; try done;
    intros ? [= <-]; by rewrite E.
Qed.

Lemma setupScrollEffects_setupStep env p :
  setupStep p (state_of (setupScrollEffects env p)).
Proof.
  destruct (setupScrollEffects_effect env p) as (W & C & D & _).
  unfold setupStep, listens. rewrite W, C. by repeat split.
Qed.

(** *** [setupFormHandling] *)

Lemma bindInputs_other l ins : ∀ i p,
  (∀ k, l ≠ OnBlur k) → (∀ k, l ≠ OnInput k) →
  listens l (bindInputs i ins p) = listens l p.
Proof.
  induction ins as [| input ins IH]; intros i p H1 H2; simpl; [done |].
  rewrite IH, !listens_addEventListener by done.
  by rewrite !bool_decide_eq_false_2.
Qed.

Lemma bindInputs_listens ins : ∀ i p j,
  (j < length ins)%nat →
  listens (OnBlur (i + j)) (bindInputs i ins p) = true ∧
  listens (OnInput (i + j)) (bindInputs i ins p) = true.
Proof.
  induction ins as [| input ins IH]; intros i p j Hj; simpl in *; [lia |].
  destruct j as [| j].
  - rewrite Nat.add_0_r.
    split; apply (bindInputs_onlyListeners ins (S i));
      rewrite !listens_addEventListener.
    + rewrite (bool_decide_eq_true_2 (OnBlur i = OnBlur i)) by done.
      by rewrite orb_true_r.
    + by rewrite (bool_decide_eq_true_2 (OnInput i = OnInput i)).
  - replace (i + S j)%nat with (S i + j)%nat by lia. apply IH. lia.
Qed.

Lemma setupFormHandling_other l p :
  l ≠ OnSubmit → (∀ k, l ≠ OnBlur k) → (∀ k, l ≠ OnInput k) →
  listens l (setupFormHandling p) = listens l p.
Proof.
  intros H0 H1 H2. unfold setupFormHandling.
  destruct (elements_contactForm p); [| done].
  rewrite bindInputs_other, listens_addEventListener by done.
  by rewrite bool_decide_eq_false_2.
Qed.

Lemma setupFormHandling_listens p f :
  elements_contactForm p = Some f →
  listens OnSubmit (setupFormHandling p) = true ∧
  ∀ i, (i < length (inputs f))%nat →
       listens (OnBlur i) (setupFormHandling p) = true ∧
       listens (OnInput i) (setupFormHandling p) = true.
Proof.
  intros Hf. unfold setupFormHandling. rewrite Hf. split.
  - apply bindInputs_onlyListeners. rewrite listens_addEventListener.
    by rewrite bool_decide_eq_true_2.
  - intros i Hi. by apply (bindInputs_listens (inputs f) 0).
Qed.

(** *** [hideLoadingScreen] *)

Lemma hideLoadingScreen_effect p :
  let q := hideLoadingScreen p in
  doc q = doc p ∧ ctl q = ctl p ∧
  localStorage (win q) = localStorage (win p) ∧
  listeners (win q) = listeners (win p) ∧
  console (win q) = console (win p) ∧
  (present (elements_loading p) = true → HideLoading ∈ tasks (win q)).
Proof.
  unfold hideLoadingScreen.
  destruct (present (elements_loading p)); simpl; split_and!; try done.
  intros _. apply elem_of_app. right. apply list_elem_of_singleton. done.
Qed.

Lemma hideLoadingScreen_setupStep p : setupStep p (hideLoadingScreen p).
Proof.
  destruct (hideLoadingScreen_effect p) as (D & C & _ & L & _).
  unfold setupStep, listens. rewrite D, C, L. by repeat split.
Qed.

(** *** [init] *)

Lemma init_again env p : isInitialized (ctl p) = true → init env p = Ok p.
Proof. intros H. unfold init. by rewrite H. Qed.

(** The course of a first call of [init]: it stops where
    [setupNavigation] or [setupScrollEffects] throws, or runs to its end. *)
Lemma init_course env p :
  isInitialized (ctl p) = false →
  let p1 := cacheElements
              (mark (lit "init_start") (upd_ctl (set_isInitialized true) p)) in
  let p2 := state_of (setupNavigation p1) in
  let p3 := setupThemeToggle env p2 in
  let p4 := state_of (setupScrollEffects env p3) in
  let p5 := mark (lit "init_complete")
                 (hideLoadingScreen (setupFormHandling p4)) in
  let p6 := if bool_decide (hostname env = localhost)
            then upd_win (set_console
                            (console (win p5) ++ [lit "Performance marks:"])) p5
            else p5 in
  (∃ e, setupNavigation p1 = Throw e p2 ∧ init env p = Throw e p2) ∨
  (setupNavigation p1 = Ok p2 ∧
   ((∃ e, setupScrollEffects env p3 = Throw e p4 ∧ init env p = Throw e p4) ∨
    (setupScrollEffects env p3 = Ok p4 ∧ init env p = Ok p6))).
Proof.
  intros H. unfold init. rewrite H.
  destruct (setupNavigation _) as [p2 | e p2]; simpl; [| left; eauto].
  right. split; [done |].
  destruct (setupScrollEffects env _) as [p4 | e p4]; simpl; eauto.
Qed.

Lemma init_start_facts p :
  let p1 := cacheElements
              (mark (lit "init_start") (upd_ctl (set_isInitialized true) p)) in
  doc p1 = doc p ∧ win p1 = win p ∧ cached (ctl p1) = true ∧
  isInitialized (ctl p1) = true ∧ pending (ctl p1) = pending (ctl p).
Proof.
  simpl. unfold cacheElements, mark; simpl. by case_bool_decide.
Qed.

Lemma listens_win l p q : win q = win p → listens l q = listens l p.
Proof. unfold listens. by intros ->. Qed.

(** What a first call of [init] does to the page, however far it gets. *)
Lemma init_fresh env p :
  isInitialized (ctl p) = false →
  let q := state_of (init env p) in
  docCore (doc q) = docCore (doc p) ∧
  cached (ctl q) = true ∧ isInitialized (ctl q) = true ∧
  pending (ctl q) = pending (ctl p) ∧
  (∀ l, listens l p = true → listens l q = true) ∧
  listens OnNavToggleClick q
  = listens OnNavToggleClick p
    || present (navToggle (doc p)) && present (navMenu (doc p)) ∧
  (localStorage (win q) = localStorage (win p) ∨
   themeToggle (doc p) = true ∧
   localStorage (win q)
   = setItem theme (initialTheme (persistedTheme p) (systemPrefersDark env))
             (localStorage (win p))) ∧
  (themeToggle (doc p) = false → localStorage (win q) = localStorage (win p)).
Proof.
  intros Hi.
  pose proof (init_course env p Hi) as Hc.
  destruct (init_start_facts p) as (D1 & W1 & C1 & I1 & P1).
  set (p1 := cacheElements _) in *.
  (* after setupNavigation *)
  destruct (setupNavigation_setupStep p1) as (D2 & C2 & I2 & P2 & L2).
  destruct (setupNavigation_frame p1) as (F2 & S2 & _).
  pose proof (setupNavigation_toggle p1) as T2.
  set (p2 := state_of (setupNavigation p1)) in *.
  assert (present (elements_navToggle p1) = present (navToggle (doc p)) ∧
          present (elements_navMenu p1) = present (navMenu (doc p)))
    as [E1 E2].
  { unfold elements_navToggle, elements_navMenu. by rewrite C1, D1. }
  rewrite E1, E2, (listens_win _ p p1 W1) in T2.
  assert (∀ l, listens l p = true → listens l p2 = true) as G2.
  { intros l Hl. apply L2. by rewrite (listens_win _ p p1 W1). }
  assert (localStorage (win p2) = localStorage (win p)) as S2'.
  { by rewrite S2, W1. }
  assert (docCore (doc p2) = docCore (doc p)) as D2' by by rewrite D2, D1.
  destruct Hc as [(e & _ & Hq) | [_ Hc]].
  { assert (state_of (init env p) = p2) as -> by (by rewrite Hq).
    split_and!; try congruence; auto. }
  (* after setupThemeToggle and setupScrollEffects *)
  destruct (setupThemeToggle_setupStep env p2) as (D3 & C3 & I3 & P3 & L3).
  pose proof (setupThemeToggle_listens env OnNavToggleClick p2) as T3.
  destruct (setupThemeToggle_effect env p2) as (_ & _ & _ & X3).
  set (p3 := setupThemeToggle env p2) in *.
  destruct (setupScrollEffects_setupStep env p3) as (D4 & C4 & I4 & P4 & L4).
  destruct (setupScrollEffects_effect env p3) as (W4 & _).
  set (p4 := state_of (setupScrollEffects env p3)) in *.
  assert (elements_themeToggle p2 = themeToggle (doc p)) as E3.
  { unfold elements_themeToggle. rewrite C2, C1; simpl.
    apply (f_equal (λ x, x.1.1.1.2)) in D2'. done. }
  assert (persistedTheme p2 = persistedTheme p) as E4.
  { unfold persistedTheme. by rewrite S2'. }
  rewrite E3, E4 in X3. rewrite E3 in T3.
  rewrite andb_false_r, orb_false_r in T3.
  assert ((localStorage (win p4) = localStorage (win p) ∨
           themeToggle (doc p) = true ∧
           localStorage (win p4)
           = setItem theme
               (initialTheme (persistedTheme p) (systemPrefersDark env))
               (localStorage (win p))) ∧
          (themeToggle (doc p) = false →
           localStorage (win p4) = localStorage (win p))) as [S4 S4'].
  { rewrite W4. destruct (themeToggle (doc p)).
    - destruct X3 as [_ ->]. rewrite S2'. split; [by right | done].
    - rewrite X3. split; [by left | done]. }
  assert (listens OnNavToggleClick p4 = listens OnNavToggleClick p2) as T4.
  { by rewrite (listens_win _ p3 p4 W4). }
  destruct Hc as [(e & _ & Hq) | [_ Hq]].
  { assert (state_of (init env p) = p4) as -> by (by rewrite Hq).
    split_and!; try congruence; auto. }
  (* to the end *)
  set (p5 := mark (lit "init_complete")
                  (hideLoadingScreen (setupFormHandling p4))) in *.
  assert (state_of (init env p)
          = if bool_decide (hostname env = localhost)
            then upd_win (set_console
                            (console (win p5) ++ [lit "Performance marks:"])) p5
            else p5) as -> by (by rewrite Hq).
  cbv zeta.
  assert (setupStep p4 p5) as (D5 & C5 & I5 & P5 & L5).
  { subst p5. eapply setupStep_trans; [| apply setupStep_mark].
    eapply setupStep_trans; [| apply hideLoadingScreen_setupStep].
    apply onlyListeners_setupStep, setupFormHandling_onlyListeners. }
  assert (localStorage (win p5) = localStorage (win p4) ∧
          listens OnNavToggleClick p5 = listens OnNavToggleClick p4)
    as [S5 T5].
  { subst p5. unfold listens. rewrite win_mark.
    destruct (hideLoadingScreen_effect (setupFormHandling p4))
      as (_ & _ & -> & -> & _).
    destruct (setupFormHandling_onlyListeners p4) as (_ & _ & -> & _).
    split; [done |]. by apply setupFormHandling_other. }
  assert (∀ (b : bool) w, docCore (doc (if b then upd_win w p5 else p5))
                          = docCore (doc p5) ∧
                          ctl (if b then upd_win w p5 else p5) = ctl p5)
    as Hb by (by intros []).
  destruct (Hb (bool_decide (hostname env = localhost))
               (set_console (console (win p5) ++ [lit "Performance marks:"])))
    as [D6 C6].
  rewrite D6, C6.
  assert (∀ (b : bool) c,
            localStorage (win (if b then upd_win (set_console c) p5 else p5))
            = localStorage (win p5) ∧
            ∀ l, listens l (if b then upd_win (set_console c) p5 else p5)
                 = listens l p5) as Hw by (by intros []).
  destruct (Hw (bool_decide (hostname env = localhost))
               (console (win p5) ++ [lit "Performance marks:"])) as [S6 L6].
  rewrite S6, !L6, S5, T5.
  split_and!; try congruence; auto.
  intros l Hl. rewrite L6. auto 6.
Qed.

Lemma setupNavigation_listens p links :
  elements_navLinks p = Some links →
  Forall (λ link, is_Some (href link)) links →
  let q := state_of (setupNavigation p) in
  setupNavigation p = Ok q ∧
  (∀ i link h,
     links !! i = Some link → href link = Some h →
     startsWith (lit "#") h = true → listens (OnNavLinkClick i) q = true) ∧
  (present (elements_header p) = true → listens OnScroll q = true).
Proof.
  intros Hl Hall. unfold setupNavigation.
  set (p1 := if _ && _ then _ else p).
  assert (onlyListeners p p1) as (D1 & C1 & _).
  { subst p1. destruct (_ && _);
      [apply onlyListeners_addEventListener | apply onlyListeners_refl]. }
  assert (elements_navLinks p1 = Some links) as ->.
  { unfold elements_navLinks in *. by rewrite C1, D1. }
  rewrite (bindNavLinks_Ok links 0 p1 Hall).
  pose proof (λ j, bindNavLinks_listens links 0 p1 j) as HL.
  destruct (bindNavLinks_onlyListeners links 0 p1) as (D2 & C2 & _).
  set (p2 := state_of (bindNavLinks 0 links p1)) in *.
  cbn [andThen state_of].
  assert (elements_header p2 = elements_header p) as ->.
  { unfold elements_header. by rewrite C2, C1, D2, D1. }
  simpl. split; [done |].
  destruct (present (elements_header p)).
  - split.
    + intros i link h H1 H2 H3. rewrite listens_addEventListener.
      rewrite bool_decide_eq_false_2 by done. by eapply (HL i).
    + intros _. rewrite listens_addEventListener.
      by rewrite bool_decide_eq_true_2.
  - split; [| done]. intros i link h H1 H2 H3. by eapply (HL i).
Qed.

(** C8: whichever of the expected elements are missing from the
    document, [init] returns without throwing, provided every nav link
    that is there carries an [href] and the browser has [matchMedia];
    and every feature whose elements are there has been set up. *)
Theorem init_tolerates_absence env d stored :
  is_Some (matchMedia env) →
  Forall (λ link, is_Some (href link)) (navLinks d) →
  ∃ q, init env (newPage d stored) = Ok q ∧
       isInitialized (ctl q) = true ∧
       featuresSetUp env d stored q.
Proof.
  intros [mm Hmm] Hall.
  set (p := newPage d stored).
  pose proof (init_course env p eq_refl) as Hc. cbv zeta in Hc.
  destruct (init_fresh env p eq_refl) as (_ & _ & Hinit & _).
  destruct (init_start_facts p) as (D1 & W1 & C1 & _).
  set (p1 := cacheElements _) in *.
  change (doc p) with d in D1.
  (* navigation *)
  destruct (setupNavigation_listens p1 (navLinks d)) as (O2 & N2 & H2);
    [unfold elements_navLinks; by rewrite C1, D1 | done |].
  destruct (setupNavigation_setupStep p1) as (_ & C2 & _ & _ & L2).
  destruct (setupNavigation_frame p1) as (D2 & S2 & T2 & _).
  pose proof (setupNavigation_toggle p1) as G2.
  set (p2 := state_of (setupNavigation p1)) in *.
  rewrite D1 in D2. rewrite W1 in S2. rewrite C1 in C2.
  (* theme *)
  destruct (setupThemeToggle_setupStep env p2) as (D3 & C3 & _ & _ & L3).
  pose proof (setupThemeToggle_listens env OnThemeToggleClick p2) as G3.
  destruct (setupThemeToggle_effect env p2) as (K3 & _ & _ & X3).
  set (p3 := setupThemeToggle env p2) in *.
  assert (elements_themeToggle p2 = themeToggle d) as E3.
  { unfold elements_themeToggle. by rewrite C2, D2. }
  assert (persistedTheme p2 = stored !! theme) as E3'.
  { unfold persistedTheme. by rewrite S2. }
  rewrite E3, E3' in X3. rewrite E3 in G3.
  rewrite D2 in K3. rewrite C2 in C3.
  (* scroll effects *)
  destruct (setupScrollEffects_setupStep env p3) as (D4 & C4 & _ & _ & L4).
  destruct (setupScrollEffects_effect env p3) as (W4 & _ & _ & T4 & X4).
  destruct (X4 mm Hmm) as [O4 K4]. clear X4.
  set (p4 := state_of (setupScrollEffects env p3)) in *.
  rewrite K3 in K4. rewrite C3 in C4.
  assert (docCore (doc p4) = docCore d) as D4'.
  { rewrite D4, D3. by rewrite D2. }
  (* form, overlay *)
  destruct (setupFormHandling_onlyListeners p4) as (D5 & C5 & _ & _ & L5).
  pose proof (setupFormHandling_listens p4) as G5.
  set (p5 := setupFormHandling p4) in *.
  destruct (hideLoadingScreen_effect p5) as (D6 & C6 & _ & L6 & _ & X6).
  set (p6 := hideLoadingScreen p5) in *.
  pose proof (doc_mark (lit "init_complete") p6) as D7.
  pose proof (win_mark (lit "init_complete") p6) as W7.
  set (p7 := mark (lit "init_complete") p6) in *.
  set (p8 := if bool_decide (hostname env = localhost)
             then upd_win (set_console
                             (console (win p7) ++ [lit "Performance marks:"]))
                          p7
             else p7).
  assert (doc p8 = doc p7 ∧ tasks (win p8) = tasks (win p7) ∧
          ∀ l, listens l p8 = listens l p7) as (D8 & T8 & L8).
  { subst p8. by destruct (bool_decide _). }
  assert (init env p = Ok p8) as Hq.
  { destruct Hc as [(e & He & _) | [_ [(e & He & _) | [_ Hq]]]];
      [congruence | congruence | exact Hq]. }
  exists p8. split; [exact Hq |].
  split; [by rewrite Hq in Hinit |].
  assert (∀ l, listens l p5 = true → listens l p8 = true) as M5.
  { intros l Hl. rewrite L8. unfold listens in *. by rewrite W7, L6. }
  assert (∀ l, listens l p2 = true → listens l p8 = true) as M2 by auto 6.
  assert (elements_contactForm p4 = contactForm d ∧
          elements_loading p5 = loading d) as [E5 E6].
  { unfold elements_contactForm, elements_loading.
    rewrite C5, D5, C4.
    apply (f_equal (λ x, (x.1.1.1.1.2, x.1.1.1.1.1.1.1.1))) in D4'.
    by injection D4' as -> ->. }
  unfold featuresSetUp. split_and!.
  - intros Hb. apply M2. rewrite G2.
    unfold elements_navToggle, elements_navMenu.
    rewrite C1, D1. cbn [present]. by rewrite Hb, orb_true_r.
  - intros i link h H1 H3 H4. apply M2. by eapply N2.
  - intros Hh. apply M2, H2. unfold elements_header. by rewrite C1, D1.
  - intros Ht. rewrite Ht in X3, G3. destruct X3 as [X3 _]. split.
    + apply M5, L5, L4. rewrite G3.
      rewrite bool_decide_eq_true_2 by done. by rewrite orb_true_r.
    + by rewrite D8, D7, D6, D5, T4.
  - intros mm' Hmm' Hr. rewrite Hmm in Hmm'. injection Hmm' as <-.
    rewrite Hr in K4. by rewrite D8, D7, D6, D5.
  - intros f Hf. rewrite E5 in G5. destruct (G5 f Hf) as [G5a G5b].
    split; [by apply M5 |]. intros i Hi. destruct (G5b i Hi). split; by apply M5.
  - intros Hl. rewrite T8, W7. apply X6. by rewrite E6.
Qed.

(** ** What the handlers leave as it is *)

Ltac frame :=
  unfold keepsCore, keepsStorage, keepsMenu, keepsBanners;
  repeat case_match; simplify_eq/=; repeat split; try done;
  try (by match goal with
          | H : ?x = Some _ |- context [?x] => rewrite H
          end).

Lemma toggleMobileMenu_keeps p :
  let q := state_of (toggleMobileMenu p) in
  keepsCore p q ∧ keepsStorage p q ∧ keepsBanners p q.
Proof.
  unfold toggleMobileMenu, elements_navMenu, elements_navToggle. frame.
Qed.

Lemma handleSmoothScroll_keeps link p :
  let q := state_of (handleSmoothScroll link p) in
  keepsCore p q ∧ keepsStorage p q ∧ keepsBanners p q.
Proof.
  unfold handleSmoothScroll.
  destruct (target link); try by frame.
  set (p1 := upd_win _ p).
  destruct (menuIsActive p1); [| by frame].
  apply (toggleMobileMenu_keeps p1).
Qed.

Lemma onKeydown_keeps key p :
  let q := state_of (onKeydown key p) in
  keepsCore p q ∧ keepsStorage p q ∧ keepsBanners p q.
Proof.
  unfold onKeydown. destruct (_ && _); [| by frame].
  apply toggleMobileMenu_keeps.
Qed.

Lemma submitStart_keeps p :
  let q := match submitStart p with
           | Done r => state_of r
           | Awaiting _ q => q
           end in
  keepsCore p q ∧ keepsStorage p q ∧ keepsMenu p q.
Proof.
  unfold submitStart, elements_contactForm, showNotification,
    appendNotification, removeExisting, schedule, setForm.
  frame.
Qed.

Lemma submitSettled_keeps t o p :
  let q := submitSettled t o p in
  keepsCore p q ∧ keepsStorage p q ∧ keepsMenu p q.
Proof.
  unfold submitSettled, mapForm, showNotification,
    appendNotification, removeExisting, schedule, setForm.
  frame.
Qed.

Lemma runTask_keeps t p :
  let q := runTask t p in
  keepsCore p q ∧ keepsStorage p q ∧ keepsMenu p q.
Proof.
  unfold runTask, updateHeaderOnScroll, elements_loading, elements_header,
    schedule.
  frame.
Qed.

Lemma onInput_keeps i g p :
  let q := onInput i g p in
  keepsCore p q ∧ keepsStorage p q ∧ keepsMenu p q ∧ keepsBanners p q.
Proof. unfold onInput, setForm. frame. Qed.

Lemma toggleTheme_keeps p :
  let q := toggleTheme p in
  keepsCore p q ∧ keepsMenu p q ∧ keepsBanners p q.
Proof. unfold toggleTheme, setTheme. frame. Qed.

Lemma onScroll_keeps p :
  let q := onScroll p in
  keepsCore p q ∧ keepsStorage p q ∧ keepsMenu p q ∧ keepsBanners p q.
Proof. unfold onScroll, schedule. frame. Qed.

Lemma mark_keeps n p :
  let q := mark n p in
  keepsCore p q ∧ keepsStorage p q ∧ keepsMenu p q ∧ keepsBanners p q.
Proof. unfold mark. frame. Qed.

(** Every handler but a first [init] keeps the cache, the listeners and
    the elements; every handler but that and [toggleTheme] keeps the
    storage. *)
Lemma step_core env e p :
  isInitialized (ctl p) = true ∨ e ≠ DOMContentLoaded →
  let q := step env p e in
  keepsCore p q ∧ (e ≠ ClickThemeToggle → keepsStorage p q).
Proof.
  intros Hi. unfold step, dispatch. destruct e.
  - destruct Hi as [Hi | Hi]; [| done].
    rewrite (init_again env p Hi). by destruct (listens _ p).
  - destruct (listens _ p); [| by frame].
    destruct (toggleMobileMenu_keeps p) as (? & ? & _). done.
  - destruct (navLinks (doc p) !! i) as [link |]; [| by frame].
    destruct (listens _ p); [| by frame].
    destruct (handleSmoothScroll_keeps link p) as (? & ? & _). done.
  - destruct (listens _ p); [| by frame].
    destruct (toggleTheme_keeps p) as (? & _). done.
  - set (p1 := upd_win _ p). destruct (listens _ p1); [| by frame].
    destruct (onScroll_keeps p1) as (H1 & H2 & _).
    split; [exact H1 | intros _; exact H2].
  - destruct (listens _ p); [| by frame].
    destruct (onKeydown_keeps key p) as (? & ? & _). done.
  - destruct (listens _ p); [| by frame].
    destruct (mark_keeps (if hidden then lit "page_hidden"
                          else lit "page_visible") p) as (? & ? & _).
    done.
  - destruct (listens _ p); [| by frame].
    destruct (onInput_keeps i (λ input errs, (validateInput input errs).2) p)
      as (? & ? & _).
    done.
  - cbv zeta. set (p1 := onInput i _ p).
    destruct (onInput_keeps i (λ input errs, (set_value v input, errs)) p)
      as (H1 & H2 & _).
    fold p1 in H1, H2. clearbody p1.
    destruct (listens _ p1); cbn [state_of]; [| done].
    destruct (onInput_keeps i clearValidationError p1) as (G1 & G2 & _).
    set (q := onInput i clearValidationError p1) in *. clearbody q.
    split; [| intros _; unfold keepsStorage in *; congruence].
    unfold keepsCore in *. destruct_and?. split_and?; congruence.
  - destruct (listens _ p); [| by frame].
    pose proof (submitStart_keeps p) as H.
    destruct (submitStart p) as [r | t p1]; simpl in H.
    + destruct H as (? & ? & _). done.
    + destruct H as (H1 & H2 & _). split; [exact H1 | intros _; exact H2].
  - destruct (pending (ctl p)) as [| t rest]; [by frame |].
    destruct (submitSettled_keeps t o (upd_ctl (set_pending rest) p))
      as (H1 & H2 & _).
    split; [exact H1 | intros _; exact H2].
  - destruct (tasks (win p) !! n) as [t |]; [| by frame].
    destruct (runTask_keeps t (upd_win (set_tasks (delete n (tasks (win p)))) p))
      as (H1 & H2 & _).
    split; [exact H1 | intros _; exact H2].
  - by frame.
Qed.

Lemma init_keeps env p :
  let q := state_of (init env p) in
  keepsMenu p q ∧ keepsBanners p q ∧
  themeToggle (doc q) = themeToggle (doc p) ∧
  present (navToggle (doc q)) = present (navToggle (doc p)).
Proof.
  destruct (isInitialized (ctl p)) eqn:Hi.
  - by rewrite (init_again env p Hi).
  - destruct (init_fresh env p Hi) as (D & _). cbv zeta.
    unfold keepsMenu, keepsBanners. unfold docCore in D.
    injection D as _ _ -> -> _ -> _ -> ->. done.
Qed.

(** Only the handlers of the menu change the menu or the overflow of the
    body. *)
Lemma step_menu env e p :
  match e with
  | ClickNavToggle | ClickNavLink _ | Keydown _ => True
  | _ => keepsMenu p (step env p e)
  end.
Proof.
  unfold step, dispatch. destruct e.
  - destruct (listens _ p); [| by frame]. apply init_keeps.
  - done.
  - done.
  - destruct (listens _ p); [| by frame]. apply toggleTheme_keeps.
  - set (p1 := upd_win _ p). destruct (listens _ p1); [| by frame].
    apply (onScroll_keeps p1).
  - done.
  - destruct (listens _ p); [| by frame]. apply mark_keeps.
  - destruct (listens _ p); [| by frame]. apply onInput_keeps.
  - set (p1 := onInput i _ p).
    destruct (onInput_keeps i (λ input errs, (set_value v input, errs)) p)
      as (_ & _ & H1 & _).
    fold p1 in H1. clearbody p1.
    destruct (listens _ p1); cbn [state_of]; [| done].
    destruct (onInput_keeps i clearValidationError p1) as (_ & _ & G1 & _).
    unfold keepsMenu in *. destruct_and?. split_and?; congruence.
  - destruct (listens _ p); [| by frame].
    pose proof (submitStart_keeps p) as H.
    destruct (submitStart p) as [r | t p1]; simpl in H; apply H.
  - destruct (pending (ctl p)) as [| t rest]; [by frame |].
    apply (submitSettled_keeps t o (upd_ctl (set_pending rest) p)).
  - destruct (tasks (win p) !! n) as [t |]; [| by frame].
    apply (runTask_keeps t
             (upd_win (set_tasks (delete n (tasks (win p)))) p)).
  - by frame.
Qed.

(** Only a submission and the timers change the banners. *)
Lemma step_keepsBanners env e p :
  match e with
  | Submit | Settled _ | Timer _ => True
  | _ => keepsBanners p (step env p e)
  end.
Proof.
  unfold step, dispatch. destruct e; [| | | | | | | | | done | done | done |].
  - destruct (listens _ p); [| by frame]. apply init_keeps.
  - destruct (listens _ p); [| by frame]. apply toggleMobileMenu_keeps.
  - destruct (navLinks (doc p) !! i) as [link |]; [| by frame].
    destruct (listens _ p); [| by frame]. apply handleSmoothScroll_keeps.
  - destruct (listens _ p); [| by frame]. apply toggleTheme_keeps.
  - set (p1 := upd_win _ p). destruct (listens _ p1); [| by frame].
    apply (onScroll_keeps p1).
  - destruct (listens _ p); [| by frame]. apply onKeydown_keeps.
  - destruct (listens _ p); [| by frame]. apply mark_keeps.
  - destruct (listens _ p); [| by frame]. apply onInput_keeps.
  - set (p1 := onInput i _ p).
    destruct (onInput_keeps i (λ input errs, (set_value v input, errs)) p)
      as (_ & _ & _ & H1).
    fold p1 in H1. clearbody p1.
    destruct (listens _ p1); cbn [state_of]; [| done].
    destruct (onInput_keeps i clearValidationError p1) as (_ & _ & _ & G1).
    unfold keepsBanners in *. congruence.
  - by frame.
Qed.

(** Running events keeps what every step keeps. *)
Lemma run_invariant (I : Page → Prop) env es :
  (∀ p e, e ∈ es → I p → I (step env p e)) →
  ∀ p, I p → I (run env es p).
Proof.
  unfold run. induction es as [| e es IH]; intros Hstep p Hp; simpl; [done |].
  apply IH.
  - intros q e' He'. apply Hstep. by right.
  - apply Hstep; [by left | done].
Qed.

(** ** Notifications *)

Lemma banners_showNotification message type p :
  (banners p ≤ 1)%nat →
  banners (removeExisting p) = 0%nat ∧
  banners (showNotification message type p) = 1%nat.
Proof.
  unfold banners, showNotification, appendNotification, removeExisting; simpl.
  destruct (notifications (doc p)) as [| n [| n' l]]; simpl; try done. lia.
Qed.

Lemma banners_setForm f p : banners (setForm f p) = banners p.
Proof. done. Qed.

Lemma submitStart_banners p :
  (banners p ≤ 1)%nat →
  (banners match submitStart p with
           | Done r => state_of r
           | Awaiting _ q => q
           end ≤ 1)%nat.
Proof.
  intros H. unfold submitStart.
  destruct (elements_contactForm p) as [f |]; [| done].
  destruct (validateRequired _ _) as [[] [ins errs]]; simpl.
  - by destruct (submitBtn f).
  - set (p1 := setForm _ p).
    destruct (banners_showNotification msgFix (lit "error") p1) as [_ ->];
      [done | lia].
Qed.

Lemma submitSettled_banners t o p :
  (banners p ≤ 1)%nat → (banners (submitSettled t o p) ≤ 1)%nat.
Proof.
  intros H. unfold submitSettled.
  set (p1 := if succeeded o then _ else _).
  assert (banners p1 = 1%nat) as H1.
  { subst p1. destruct (succeeded o).
    - destruct (banners_showNotification msgSent (lit "success") p H)
        as [_ E].
      unfold mapForm. by destruct (contactForm _).
    - by destruct (banners_showNotification msgFailed (lit "error") p H). }
  unfold mapForm. destruct (contactForm (doc p1)); rewrite ?banners_setForm; lia.
Qed.

Lemma runTask_banners t p : (banners (runTask t p) ≤ banners p)%nat.
Proof.
  unfold banners, runTask, updateHeaderOnScroll, schedule.
  destruct t; simpl; rewrite ?length_fmap; try done.
  - apply length_filter.
  - by destruct (elements_loading p).
  - by destruct (elements_loading p).
  - by destruct (elements_header p).
Qed.

Lemma step_banners env e p :
  (banners p ≤ 1)%nat → (banners (step env p e) ≤ 1)%nat.
Proof.
  intros H. pose proof (step_keepsBanners env e p) as K.
  destruct e; try (unfold banners, keepsBanners in *; by rewrite K).
  - unfold step, dispatch. destruct (listens _ p); [| done].
    pose proof (submitStart_banners p H) as G.
    by destruct (submitStart p).
  - unfold step, dispatch. destruct (pending (ctl p)) as [| t rest]; [done |].
    by apply submitSettled_banners.
  - unfold step, dispatch. destruct (tasks (win p) !! n) as [t |]; [| done].
    etransitivity; [apply runTask_banners | done].
Qed.

(** ** The page as the script leaves it *)

Lemma load_facts env d stored :
  let q := load env d stored in
  docCore (doc q) = docCore d ∧
  (listens OnNavToggleClick q = true → present (navToggle d) = true) ∧
  storageInvariant env d stored q.
Proof.
  unfold load, script.
  set (p0 := addEventListener OnKeydown (newPage d stored)).
  assert (∀ (b : bool) p,
            let q := if b
                     then upd_win (set_StaticPages true)
                                  (addEventListener OnVisibilityChange p)
                     else addEventListener OnVisibilityChange p in
            doc q = doc p ∧ ctl q = ctl p ∧
            localStorage (win q) = localStorage (win p) ∧
            listens OnNavToggleClick q = listens OnNavToggleClick p) as Hfin.
  { intros b p.
    pose proof (listens_addEventListener OnNavToggleClick OnVisibilityChange p)
      as HL.
    destruct (onlyListeners_addEventListener OnVisibilityChange p)
      as (D & C & S & _).
    rewrite bool_decide_eq_false_2 in HL by done.
    by destruct b. }
  assert (doc p0 = d ∧ localStorage (win p0) = mkStorage stored [] ∧
          isInitialized (ctl p0) = false ∧
          listens OnNavToggleClick p0 = false) as (D0 & S0 & I0 & L0) by done.
  unfold storageInvariant.
  destruct (bool_decide (readyState env = lit "loading")); cbn [andThen].
  - set (p1 := addEventListener OnDOMContentLoaded p0).
    assert (doc p1 = d ∧ localStorage (win p1) = mkStorage stored [] ∧
            listens OnNavToggleClick p1 = false) as (D1 & S1 & L1) by done.
    destruct (Hfin (bool_decide (hostname env = localhost)) p1)
      as (D & C & S & L).
    cbn [state_of]. rewrite D, S, L, D1, S1, L1. split_and!; auto. done.
  - destruct (init_fresh env p0 I0) as (D1 & _ & I1 & _ & _ & L1 & S1 & _).
    rewrite L0, D0 in L1. rewrite S0, D0 in S1. rewrite D0 in D1.
    change (persistedTheme p0) with (stored !! theme) in S1.
    simpl in L1.
    destruct (init env p0) as [p1 | e p1]; cbn [andThen state_of] in *.
    + destruct (Hfin (bool_decide (hostname env = localhost)) p1)
        as (D & C & S & L).
      rewrite D, C, S, L, D1, L1.
      split_and!; [done | by intros [? _]%andb_true_iff | |].
      * apply (f_equal (λ x, x.1.1.1.2)) in D1. done.
      * destruct S1 as [S1 | [S1 S1']]; [by left | right; done].
    + rewrite L1. split_and!; [done | by intros [? _]%andb_true_iff | |].
      * apply (f_equal (λ x, x.1.1.1.2)) in D1. done.
      * destruct S1 as [S1 | [S1 S1']]; [by left | right; done].
Qed.

(** ** The persisted theme *)

Lemma step_storageInvariant env d stored p e :
  e ≠ ClickThemeToggle →
  storageInvariant env d stored p →
  storageInvariant env d stored (step env p e).
Proof.
  intros He [Ht Hs]. unfold storageInvariant.
  destruct (isInitialized (ctl p)) eqn:Hi.
  { destruct (step_core env e p) as [(T & _ & _ & I & _) K]; [by left |].
    rewrite T, I, (K He), Hi. by split. }
  destruct Hs as [Hs | [? _]]; [| congruence].
  assert (e = DOMContentLoaded ∨ e ≠ DOMContentLoaded) as [-> | Hd]
    by (destruct e; auto).
  - unfold step, dispatch. destruct (listens _ p); [| by split; [| left]].
    destruct (init_fresh env p Hi) as (D & _ & I & _ & _ & _ & S & _).
    split.
    + apply (f_equal (λ x, x.1.1.1.2)) in D. simpl in D. congruence.
    + destruct S as [S | [S1 S2]]; [left; congruence |].
      right. split_and!; [done | congruence |].
      rewrite S2. unfold persistedTheme. by rewrite Hs.
  - destruct (step_core env e p) as [(T & _ & _ & I & _) K]; [by right |].
    rewrite T, (K He). split; [done | by left].
Qed.

(** C6 (as amended): while the user does not use the theme toggle, the
    persisted theme is written at most once, by initialisation, which
    writes the theme it has resolved when the theme toggle is in the
    document; without the toggle in the document nothing is written. *)
Theorem theme_written_by_init_only env d stored es :
  ClickThemeToggle ∉ es →
  let p := run env es (load env d stored) in
  (themeToggle d = false → writes p = []) ∧
  (writes p = [] ∨ writes p = [initialWrite env stored]).
Proof.
  intros Hes.
  assert (storageInvariant env d stored (run env es (load env d stored)))
    as [_ H].
  { apply run_invariant; [| apply load_facts].
    intros p e He. apply step_storageInvariant. by intros ->. }
  cbv zeta. unfold writes.
  destruct H as [-> | (_ & Ht & ->)]; simpl.
  - split; [done | by left].
  - split; [congruence | by right].
Qed.

Lemma theme_written_by_init_only_witness :
  let env := mkEnv (Some (λ _, true)) (lit "example.org") (lit "loading") in
  let d := mkDocument None None None None None true [] [] None [] [] in
  let es := [Scroll 120; DOMContentLoaded; Keydown (lit "Escape")] in
  (ClickThemeToggle ∉ es) ∧
  writes (run env es (load env d ∅)) = [(theme, dark)].
Proof.
  assert (ClickThemeToggle
          ∉ [Scroll 120; DOMContentLoaded; Keydown (lit "Escape")]) as H.
  { intros H. by repeat (apply elem_of_cons in H as [? | H]; [done |]);
      apply elem_of_nil in H. }
  split; [exact H |].
  destruct (theme_written_by_init_only
              (mkEnv (Some (λ _, true)) (lit "example.org") (lit "loading"))
              (mkDocument None None None None None true [] [] None [] [])
              ∅ _ H) as [_ [E | E]].
  - vm_compute in E. discriminate E.
  - vm_compute. reflexivity.
Defined.

(** C6 as stated fails: with the theme toggle in the document,
    initialisation alone, without any event, writes the theme. *)
Lemma init_writes_theme_counterexample :
  let env := mkEnv (Some (λ _, false)) (lit "example.org") (lit "complete") in
  let d := mkDocument None None None None None true [] [] None [] [] in
  (ClickThemeToggle ∉ @nil Event) ∧
  writes (run env [] (load env d ∅)) = [(theme, light)] ∧
  writes (run env [] (load env d ∅)) ≠ [].
Proof.
  split_and!; [apply not_elem_of_nil | by vm_compute | by vm_compute].
Qed.

(** ** The mobile menu *)

Lemma contains_toggle c l :
  contains c (classList_toggle c l) = negb (contains c l).
Proof.
  unfold classList_toggle, contains, classList_remove.
  destruct (decide (c ∈ l)) as [H | H].
  - rewrite (bool_decide_eq_true_2 _ H); simpl.
    apply bool_decide_eq_false. rewrite list_elem_of_filter. naive_solver.
  - rewrite (bool_decide_eq_false_2 _ H); simpl.
    apply bool_decide_eq_true. apply elem_of_app. right.
    by apply list_elem_of_singleton.
Qed.

Lemma scrollLocked_overflow (b : bool) :
  bool_decide ((if b then lit "hidden" else []) = lit "hidden") = b.
Proof. by destruct b. Qed.

(** With the toggle in the document, [toggleMobileMenu] flips the menu
    and sets the overflow of the body to match. *)
Lemma toggleMobileMenu_menuInvariant p :
  menuInvariant p →
  present (navToggle (doc p)) = true →
  let q := state_of (toggleMobileMenu p) in
  menuInvariant q ∧
  menuActive (doc q)
  = (if present (elements_navMenu p) then negb (menuActive (doc p))
     else menuActive (doc p)).
Proof.
  intros (H1 & H2 & H3) Ht.
  destruct (toggleMobileMenu_keeps p) as ((_ & P & _ & _ & L) & _).
  cbv zeta. unfold menuInvariant, listens. rewrite P, L, Ht. clear P L.
  unfold toggleMobileMenu, elements_navMenu, elements_navToggle in *.
  destruct (cached (ctl p)) eqn:Hc; simpl; [| done].
  destruct (navMenu (doc p)) as [menu |] eqn:Hm; simpl; [| done].
  rewrite Hc; simpl.
  destruct (navToggle (doc p)) as [toggle |] eqn:Hg; [| done]. simpl.
  unfold menuActive, scrollLocked; simpl.
  rewrite scrollLocked_overflow, Hm. by rewrite contains_toggle.
Qed.

Lemma menuIsActive_menuActive p :
  menuIsActive p = true → menuActive (doc p) = true.
Proof.
  unfold menuIsActive, elements_navMenu, menuActive.
  by destruct (cached (ctl p)).
Qed.

Lemma menuInvariant_active p :
  menuInvariant p → menuActive (doc p) = true →
  present (navToggle (doc p)) = true.
Proof.
  intros (_ & _ & H3) Ha. destruct (present _); [done |].
  rewrite H3 in Ha; done.
Qed.

Lemma step_menuInvariant env p e :
  menuInvariant p → menuInvariant (step env p e).
Proof.
  intros HI. pose proof (step_menu env e p) as K.
  assert (∀ q, keepsMenu p q → keepsCore p q → menuInvariant q) as Hkeep.
  { intros q (M1 & M2 & M3) (_ & P & _ & _ & L).
    destruct HI as (H1 & H2 & H3).
    unfold menuInvariant, menuActive, scrollLocked, listens in *.
    rewrite M1, M3, P, L. done. }
  assert (∀ p', menuInvariant p' → menuIsActive p' = true →
                menuInvariant (state_of (toggleMobileMenu p'))) as Hclose.
  { intros p' HI' Ha. apply toggleMobileMenu_menuInvariant; [done |].
    by apply menuInvariant_active, menuIsActive_menuActive. }
  destruct e;
    try (apply Hkeep; [exact K | apply step_core; by right]).
  - (* DOMContentLoaded *)
    destruct (isInitialized (ctl p)) eqn:Hi.
    { apply Hkeep; [exact K | apply step_core; by left]. }
    unfold step, dispatch. destruct (listens _ p); [| done].
    destruct (init_fresh env p Hi) as (D & _ & _ & _ & _ & L & _).
    destruct HI as (H1 & H2 & H3).
    unfold menuInvariant, menuActive, scrollLocked in *.
    unfold docCore in D. injection D as _ _ D1 D2 _ _ _ D3 _.
    rewrite L, D1, D2, D3. split_and!; try done.
    intros [? | [? _]%andb_true_iff]%orb_true_iff; auto.
  - (* ClickNavToggle *)
    unfold step, dispatch. destruct (listens _ p) eqn:Hl; [| done].
    apply toggleMobileMenu_menuInvariant; [done |].
    destruct HI as (_ & H2 & _). auto.
  - (* ClickNavLink *)
    unfold step, dispatch.
    destruct (navLinks (doc p) !! i) as [link |]; [| done].
    destruct (listens _ p); [| done].
    unfold handleSmoothScroll. destruct (target link); try done.
    set (p1 := upd_win _ p).
    destruct (menuIsActive p1) eqn:Ha; [| done].
    by apply Hclose.
  - (* Keydown *)
    unfold step, dispatch. destruct (listens _ p); [| done].
    unfold onKeydown. destruct (bool_decide _); [| done]. simpl.
    destruct (menuIsActive p) eqn:Ha; [| done].
    by apply Hclose.
Qed.

(** C5: on a page served with the menu closed and the body free to
    scroll, whatever events follow, the menu is active exactly when the
    body suppresses scrolling; and when an event opens the closed menu
    and the next one closes it, the body is as free or as locked as it
    was before the menu was opened. *)
Theorem menu_scroll_lockstep env d stored es :
  servedClosed d →
  let p := run env es (load env d stored) in
  menuActive (doc p) = scrollLocked (doc p) ∧
  ∀ e1 e2,
    menuActive (doc p) = false →
    menuActive (doc (step env p e1)) = true →
    menuActive (doc (run env [e1; e2] p)) = false →
    scrollLocked (doc (run env [e1; e2] p)) = scrollLocked (doc p).
Proof.
  intros [Hm Hs].
  assert (menuInvariant (load env d stored)) as H0.
  { destruct (load_facts env d stored) as (D & L & _).
    unfold menuInvariant, menuActive, scrollLocked in *.
    unfold docCore in D. injection D as _ _ D1 D2 _ _ _ D3 _.
    rewrite D1, D2, D3, Hm, Hs. done. }
  assert (∀ es', menuInvariant (run env es' (load env d stored))) as Hrun.
  { intros es'. apply run_invariant; [| done].
    intros p e _. apply step_menuInvariant. }
  cbv zeta. split; [apply Hrun |].
  intros e1 e2 Hclosed _ Hclosed'.
  destruct (Hrun es) as [<- _].
  unfold run in *. rewrite <- (foldl_app (step env) es [e1; e2]).
  destruct (Hrun (es ++ [e1; e2])) as [E _]. unfold run in E.
  rewrite <- E, foldl_app. simpl. simpl in Hclosed'. congruence.
Qed.

Lemma menu_scroll_lockstep_witness :
  servedClosed Sample.document ∧
  let p := run Sample.env [Scroll 40] (load Sample.env Sample.document ∅) in
  menuActive (doc p) = scrollLocked (doc p) ∧
  scrollLocked (doc (run Sample.env [ClickNavToggle; Keydown (lit "Escape")] p))
  = scrollLocked (doc p).
Proof.
  assert (servedClosed Sample.document) as H by (split; reflexivity).
  split; [exact H |].
  destruct (menu_scroll_lockstep Sample.env Sample.document ∅ [Scroll 40] H)
    as [H1 H2].
  split; [exact H1 |].
  apply H2; vm_compute; reflexivity.
Defined.

(** ** Notifications, over a whole run *)

(** C3: on a page served with at most one banner, whatever events
    follow, there is at most one banner in the document; and a call of
    [showNotification] first leaves none, then exactly the new one. *)
Theorem notification_at_most_one env d stored es :
  (length (notifications d) ≤ 1)%nat →
  let p := run env es (load env d stored) in
  (banners p ≤ 1)%nat ∧
  ∀ message type,
    banners (removeExisting p) = 0%nat ∧
    banners (showNotification message type p) = 1%nat.
Proof.
  intros Hd.
  assert (banners (run env es (load env d stored)) ≤ 1)%nat as H.
  { apply (run_invariant (λ p, (banners p ≤ 1)%nat)).
    - intros p e _. apply step_banners.
    - destruct (load_facts env d stored) as (D & _).
      unfold banners. unfold docCore in D. injection D as _ _ _ _ _ _ _ _ ->.
      done. }
  cbv zeta. split; [exact H |].
  intros message type. by apply banners_showNotification.
Qed.

Lemma notification_at_most_one_witness :
  (length (notifications Sample.document) ≤ 1)%nat ∧
  let p := run Sample.env [Submit; Settled NetworkError; Submit]
               (load Sample.env Sample.document ∅) in
  (banners p ≤ 1)%nat ∧
  ∀ message type,
    banners (removeExisting p) = 0%nat ∧
    banners (showNotification message type p) = 1%nat.
Proof.
  assert (length (notifications Sample.document) ≤ 1)%nat as H
    by (simpl; lia).
  split; [exact H |].
  exact (notification_at_most_one Sample.env Sample.document ∅
           [Submit; Settled NetworkError; Submit] H).
Defined.

(** ** Examples of submission and initialisation *)

Lemma Sample_form_passes : requiredFieldsPass Sample.form.
Proof. repeat constructor; intros _; vm_compute; reflexivity. Defined.

Lemma handleFormSubmit_failure_witness :
  let btn := mkButton (lit "Send Message") false in
  elements_contactForm Sample.page = Some Sample.form ∧
  submitBtn Sample.form = Some btn ∧
  requiredFieldsPass Sample.form ∧
  ∃ p' f',
    handleFormSubmit (Response false NotJson) Sample.page = Ok p' ∧
    contactForm (doc p') = Some f' ∧
    buttonRestored btn f' ∧
    (failed (Response false NotJson) → failureShown Sample.page Sample.form p' f').
Proof.
  split_and!; [reflexivity | reflexivity | exact Sample_form_passes |].
  exact (handleFormSubmit_failure (Response false NotJson) Sample.page
           Sample.form (mkButton (lit "Send Message") false)
           eq_refl eq_refl Sample_form_passes).
Defined.

Lemma handleFormSubmit_body_not_success_witness :
  let btn := mkButton (lit "Send Message") false in
  let data := JObject [(lit "success", JBool false);
                       (lit "message", JString (lit "Invalid access key"))] in
  elements_contactForm Sample.page = Some Sample.form ∧
  submitBtn Sample.form = Some btn ∧
  requiredFieldsPass Sample.form ∧
  ¬ indicatesSuccess data ∧
  ∃ p' f',
    handleFormSubmit (Response true (Json data)) Sample.page = Ok p' ∧
    contactForm (doc p') = Some f' ∧
    (¬ indicatesSuccess data → failureShown Sample.page Sample.form p' f') ∧
    (indicatesSuccess data →
     successShown Sample.page Sample.form p' f' ∧
     ¬ failureShown Sample.page Sample.form p' f').
Proof.
  split_and!; [reflexivity | reflexivity | exact Sample_form_passes | |].
  { intros (v & H1 & H2). vm_compute in H1. injection H1 as <-.
    discriminate H2. }
  exact (handleFormSubmit_body_not_success _ Sample.page Sample.form
           (mkButton (lit "Send Message") false)
           eq_refl eq_refl Sample_form_passes).
Defined.

(** A successful submission, for comparison: the banner says so and the
    fields are back at their defaults. *)
Example handleFormSubmit_success :
  let data := JObject [(lit "success", JBool true)] in
  let p' := state_of (handleFormSubmit (Response true (Json data))
                                       Sample.page) in
  ((λ f, value <$> inputs f) <$> contactForm (doc p')) = Some [[]; []; []]
  ∧ (ntf_textContent <$> notifications (doc p')) = [msgSent]
  ∧ (submitBtn <$> contactForm (doc p'))
    = Some (Some (mkButton (lit "Send Message") false)).
Proof. by vm_compute. Qed.

(** A submission with an invalid field does not reach the network. *)
Example handleFormSubmit_invalid :
  let p := step Sample.env Sample.page (Edit 1 (lit "ann@example")) in
  let p' := step Sample.env p Submit in
  (ntf_textContent <$> notifications (doc p')) = [msgFix]
  ∧ pending (ctl p') = [].
Proof. by vm_compute. Qed.

Lemma init_tolerates_absence_witness :
  is_Some (matchMedia Sample.env) ∧
  Forall (λ link, is_Some (href link)) (navLinks Sample.bare) ∧
  ∃ q, init Sample.env (newPage Sample.bare ∅) = Ok q ∧
       isInitialized (ctl q) = true ∧
       featuresSetUp Sample.env Sample.bare ∅ q.
Proof.
  assert (is_Some (matchMedia Sample.env)) as H1 by (eexists; reflexivity).
  assert (Forall (λ link, is_Some (href link)) (navLinks Sample.bare)) as H2
    by (repeat constructor; eexists; reflexivity).
  split_and!; [exact H1 | exact H2 |].
  exact (init_tolerates_absence Sample.env Sample.bare ∅ H1 H2).
Defined.

(** * Further properties of the script *)

(** ** Initialisation: once, and where it stops *)

(** [init] runs once: after a first call, whether it returned or threw,
    a further call returns at once and changes nothing. *)
Theorem init_once env env' p :
  init env' (state_of (init env p)) = Ok (state_of (init env p)).
Proof.
  apply init_again.
  destruct (isInitialized (ctl p)) eqn:Hi.
  - by rewrite (init_again env p Hi).
  - by destruct (init_fresh env p Hi) as (_ & _ & ? & _).
Qed.

Lemma bindNavLinks_throws links : ∀ i p,
  Exists (λ link, href link = None) links →
  bindNavLinks i links p
  = Throw TypeError (state_of (bindNavLinks i links p)).
Proof.
  induction links as [| link links IH]; intros i p H; [by inversion H |].
  simpl. destruct (href link) as [h |] eqn:Hh; [| done].
  apply IH. inversion H as [? ? Hn | ? ? Ht]; subst; [congruence | done].
Qed.

(** [setupNavigation] registers the listeners of navigation and no
    other. *)
Lemma setupNavigation_other l p :
  l ≠ OnNavToggleClick → (∀ k, l ≠ OnNavLinkClick k) → l ≠ OnScroll →
  listens l (state_of (setupNavigation p)) = listens l p.
Proof.
  intros H1 H2 H3. unfold setupNavigation.
  set (p1 := if _ && _ then _ else p).
  assert (listens l p1 = listens l p) as <-.
  { subst p1. destruct (_ && _); [| done].
    rewrite listens_addEventListener. by rewrite bool_decide_eq_false_2. }
  destruct (elements_navLinks p1) as [links |]; [| done].
  pose proof (bindNavLinks_other l links 0 p1 H2) as H.
  destruct (bindNavLinks 0 links p1) as [p2 | e p2]; simpl in *; [| done].
  rewrite <- H.
  destruct (present (elements_header p2)); [| done].
  rewrite listens_addEventListener. by rewrite bool_decide_eq_false_2.
Qed.

Lemma setupNavigation_throws p links :
  elements_navLinks p = Some links →
  Exists (λ link, href link = None) links →
  setupNavigation p = Throw TypeError (state_of (setupNavigation p)) ∧
  listens OnScroll (state_of (setupNavigation p)) = listens OnScroll p.
Proof.
  intros Hl Hex. unfold setupNavigation.
  set (p1 := if _ && _ then _ else p).
  assert (onlyListeners p p1 ∧ listens OnScroll p1 = listens OnScroll p)
    as [(D1 & C1 & _) L1].
  { subst p1. destruct (_ && _).
    - split; [apply onlyListeners_addEventListener |].
      rewrite listens_addEventListener. by rewrite bool_decide_eq_false_2.
    - split; [apply onlyListeners_refl | done]. }
  assert (elements_navLinks p1 = Some links) as ->.
  { unfold elements_navLinks in *. by rewrite C1, D1. }
  rewrite (bindNavLinks_throws links 0 p1 Hex). cbn [andThen state_of].
  split; [done |]. by rewrite bindNavLinks_other.
Qed.

(** A nav link without an [href] stops [init] in [setupNavigation]: the
    TypeError leaves the document as it was served, with no theme
    applied or persisted, no listener for scrolling, the theme toggle or
    the form, and no timer for the loading overlay; and the page counts as
    initialised. *)
Theorem init_stops_at_link_without_href env d stored :
  Exists (λ link, href link = None) (navLinks d) →
  ∃ q, init env (newPage d stored) = Throw TypeError q ∧
       doc q = d ∧ writes q = [] ∧ tasks (win q) = [] ∧
       listens OnScroll q = false ∧
       listens OnThemeToggleClick q = false ∧
       listens OnSubmit q = false ∧
       isInitialized (ctl q) = true.
Proof.
  intros Hex. set (p := newPage d stored).
  pose proof (init_course env p eq_refl) as Hc. cbv zeta in Hc.
  destruct (init_fresh env p eq_refl) as (_ & _ & Hinit & _).
  destruct (init_start_facts p) as (D1 & W1 & C1 & _).
  set (p1 := cacheElements _) in *.
  change (doc p) with d in D1.
  destruct (setupNavigation_throws p1 (navLinks d)) as [T2 S2];
    [unfold elements_navLinks; by rewrite C1, D1 | done |].
  destruct (setupNavigation_frame p1) as (D2 & St2 & Ta2 & _).
  pose proof (setupNavigation_other OnThemeToggleClick p1) as O1.
  pose proof (setupNavigation_other OnSubmit p1) as O2.
  set (p2 := state_of (setupNavigation p1)) in *.
  assert (init env p = Throw TypeError p2) as Hq.
  { destruct Hc as [(e & He & Hq) | [He _]]; [| congruence].
    rewrite T2 in He. by injection He as <-. }
  exists p2. rewrite Hq in Hinit. split_and!.
  - exact Hq.
  - by rewrite D2.
  - unfold writes. by rewrite St2, W1.
  - by rewrite Ta2, W1.
  - by rewrite S2, (listens_win _ p p1 W1).
  - by rewrite O1, (listens_win _ p p1 W1).
  - by rewrite O2, (listens_win _ p p1 W1).
  - exact Hinit.
Qed.

Lemma init_stops_at_link_without_href_witness :
  let d := mkDocument (Some (mkLoading [] [])) None None None
             (Some Sample.form) true
             [mkLink (Some (lit "#top")) NoMatch; mkLink None NoMatch]
             [] None [] [] in
  Exists (λ link, href link = None) (navLinks d) ∧
  ∃ q, init Sample.env (newPage d ∅) = Throw TypeError q ∧
       doc q = d ∧ writes q = [] ∧ tasks (win q) = [] ∧
       listens OnScroll q = false ∧
       listens OnThemeToggleClick q = false ∧
       listens OnSubmit q = false ∧
       isInitialized (ctl q) = true.
Proof.
  assert (Exists (λ link, href link = None)
            [mkLink (Some (lit "#top")) NoMatch; mkLink None NoMatch]) as H
    by (right; left; reflexivity).
  split; [exact H |].
  exact (init_stops_at_link_without_href Sample.env
           (mkDocument (Some (mkLoading [] [])) None None None
              (Some Sample.form) true
              [mkLink (Some (lit "#top")) NoMatch; mkLink None NoMatch]
              [] None [] []) ∅ H).
Defined.

(** A first call of [init] returns when the nav links carry their [href]
    and the browser has [matchMedia]. *)
Lemma init_returns env p :
  isInitialized (ctl p) = false →
  is_Some (matchMedia env) →
  Forall (λ link, is_Some (href link)) (navLinks (doc p)) →
  ∃ q, init env p = Ok q.
Proof.
  intros Hi [mm Hmm] Hall.
  pose proof (init_course env p Hi) as Hc. cbv zeta in Hc.
  destruct (init_start_facts p) as (D1 & W1 & C1 & _).
  set (p1 := cacheElements _) in *.
  destruct (setupNavigation_listens p1 (navLinks (doc p))) as (O2 & _);
    [unfold elements_navLinks; by rewrite C1, D1 | done |].
  set (p2 := state_of (setupNavigation p1)) in *.
  destruct (setupScrollEffects_effect env (setupThemeToggle env p2))
    as (_ & _ & _ & _ & X4).
  destruct (X4 mm Hmm) as [O4 _].
  destruct Hc as [(e & He & _) | [_ [(e & He & _) | [_ Hq]]]];
    [congruence | congruence | eauto].
Qed.

(** What [init] has scheduled when it returns: the timer of the loading
    overlay, if there is an overlay, and nothing else. *)
Lemma init_tasks env p q :
  isInitialized (ctl p) = false → init env p = Ok q →
  tasks (win q)
  = tasks (win p) ++ if present (loading (doc p)) then [HideLoading] else [].
Proof.
  intros Hi Hq.
  pose proof (init_course env p Hi) as Hc. cbv zeta in Hc.
  destruct (init_start_facts p) as (D1 & W1 & C1 & _).
  set (p1 := cacheElements _) in *.
  destruct (setupNavigation_setupStep p1) as (E2 & C2 & _).
  destruct (setupNavigation_frame p1) as (_ & _ & T2 & _).
  set (p2 := state_of (setupNavigation p1)) in *.
  destruct (setupThemeToggle_setupStep env p2) as (E3 & C3 & _).
  destruct (setupThemeToggle_effect env p2) as (_ & T3 & _).
  set (p3 := setupThemeToggle env p2) in *.
  destruct (setupScrollEffects_setupStep env p3) as (E4 & C4 & _).
  destruct (setupScrollEffects_effect env p3) as (W4 & _).
  set (p4 := state_of (setupScrollEffects env p3)) in *.
  destruct (setupFormHandling_onlyListeners p4) as (D5 & C5 & _ & T5 & _).
  set (p5 := setupFormHandling p4) in *.
  destruct Hc as [(e & _ & He) | [_ [(e & _ & He) | [_ He]]]];
    [congruence | congruence |].
  rewrite He in Hq. injection Hq as <-.
  set (p7 := mark _ (hideLoadingScreen p5)).
  assert (tasks (win p7) = tasks (win (hideLoadingScreen p5))) as T7
    by (subst p7; by rewrite win_mark).
  assert (∀ (b : bool) c, tasks (win (if b then upd_win (set_console c) p7
                                      else p7)) = tasks (win p7)) as ->
    by (by intros []).
  rewrite T7. unfold hideLoadingScreen.
  assert (elements_loading p5 = loading (doc p)) as ->.
  { unfold elements_loading. rewrite C5, D5, C4, C3, C2, C1.
    apply (f_equal (λ x, x.1.1.1.1.1.1.1.1)) in E4, E3, E2.
    simpl in *. congruence. }
  destruct (present (loading (doc p))); simpl.
  - by rewrite T5, W4, T3, T2, W1.
  - by rewrite app_nil_r, T5, W4, T3, T2, W1.
Qed.

(** Without [matchMedia] in the browser [init] stops in
    [setupScrollEffects]: navigation and theme are set up (the theme
    without a system preference), but the cards are not prepared, the
    form gets no listener and the loading overlay no timer. *)
Theorem init_stops_without_matchMedia env d stored :
  matchMedia env = None →
  Forall (λ link, is_Some (href link)) (navLinks d) →
  ∃ q, init env (newPage d stored) = Throw TypeError q ∧
       cards (doc q) = cards d ∧ tasks (win q) = [] ∧
       listens OnSubmit q = false ∧
       (present (header d) = true → listens OnScroll q = true) ∧
       (themeToggle d = true →
        listens OnThemeToggleClick q = true ∧
        dataTheme (doc q) = Some (initialTheme (stored !! theme) false)).
Proof.
  intros Hmm Hall. set (p := newPage d stored).
  pose proof (init_course env p eq_refl) as Hc. cbv zeta in Hc.
  destruct (init_start_facts p) as (D1 & W1 & C1 & _).
  set (p1 := cacheElements _) in *.
  change (doc p) with d in D1.
  destruct (setupNavigation_listens p1 (navLinks d)) as (O2 & _ & H2);
    [unfold elements_navLinks; by rewrite C1, D1 | done |].
  destruct (setupNavigation_setupStep p1) as (_ & C2 & _).
  destruct (setupNavigation_frame p1) as (D2 & S2 & T2 & _).
  pose proof (setupNavigation_other OnSubmit p1) as N2.
  set (p2 := state_of (setupNavigation p1)) in *.
  rewrite D1 in D2. rewrite W1 in S2, T2. rewrite C1 in C2.
  destruct (setupThemeToggle_setupStep env p2) as (_ & _ & _ & _ & L3).
  pose proof (setupThemeToggle_listens env OnThemeToggleClick p2) as G3.
  pose proof (setupThemeToggle_listens env OnSubmit p2) as G3'.
  destruct (setupThemeToggle_effect env p2) as (K3 & T3 & _ & X3).
  set (p3 := setupThemeToggle env p2) in *.
  assert (elements_themeToggle p2 = themeToggle d) as E3.
  { unfold elements_themeToggle. by rewrite C2, D2. }
  assert (persistedTheme p2 = stored !! theme) as E3'.
  { unfold persistedTheme. by rewrite S2. }
  assert (systemPrefersDark env = false) as E3''.
  { unfold systemPrefersDark. by rewrite Hmm. }
  rewrite E3, E3', E3'' in X3. rewrite E3 in G3.
  rewrite andb_false_r, orb_false_r, N2 in G3'; try done.
  assert (setupScrollEffects env p3 = Throw TypeError p3) as O4.
  { unfold setupScrollEffects. by rewrite Hmm. }
  exists p3. split_and!.
  - destruct Hc as [(e & He & _) | [_ [(e & He & Hq) | [He _]]]];
      [congruence | | congruence].
    rewrite O4 in He. injection He as <-. rewrite Hq. f_equal.
    by rewrite O4.
  - by rewrite K3, D2.
  - by rewrite T3, T2.
  - by rewrite G3', (listens_win _ p p1 W1).
  - intros Hh. apply L3, H2. unfold elements_header. by rewrite C1, D1.
  - intros Ht. rewrite Ht in X3, G3. destruct X3 as [X3 _]. split; [| done].
    rewrite G3. rewrite bool_decide_eq_true_2 by done. by rewrite orb_true_r.
Qed.

Lemma init_stops_without_matchMedia_witness :
  let env := mkEnv None (lit "example.org") (lit "complete") in
  matchMedia env = None ∧
  Forall (λ link, is_Some (href link)) (navLinks Sample.document) ∧
  ∃ q, init env (newPage Sample.document ∅) = Throw TypeError q ∧
       cards (doc q) = cards Sample.document ∧ tasks (win q) = [] ∧
       listens OnSubmit q = false ∧
       (present (header Sample.document) = true → listens OnScroll q = true) ∧
       (themeToggle Sample.document = true →
        listens OnThemeToggleClick q = true ∧
        dataTheme (doc q) = Some light).
Proof.
  assert (Forall (λ link, is_Some (href link)) (navLinks Sample.document))
    as H by (repeat constructor; eexists; reflexivity).
  split_and!; [reflexivity | exact H |].
  exact (init_stops_without_matchMedia
           (mkEnv None (lit "example.org") (lit "complete"))
           Sample.document ∅ eq_refl H).
Defined.

(** ** The loading overlay *)

Lemma contains_add c l : contains c (classList_add c l) = true.
Proof.
  unfold classList_add. destruct (contains c l) eqn:E; [done |].
  unfold contains. apply bool_decide_eq_true, elem_of_app. right.
  by apply list_elem_of_singleton.
Qed.

(** When [init] returns, the one timer it has started is that of the
    loading overlay, if there is one; and when that timer and the one it
    starts have run, the overlay has the class [hide], is not displayed,
    and no timer is left. *)
Theorem loading_overlay_dismissed env d stored :
  is_Some (matchMedia env) →
  Forall (λ link, is_Some (href link)) (navLinks d) →
  ∃ p, init env (newPage d stored) = Ok p ∧
       tasks (win p) = (if present (loading d) then [HideLoading] else []) ∧
       ∀ l, loading d = Some l →
            let q := run env [Timer 0; Timer 0] p in
            loading (doc q)
            = Some (mkLoading (classList_add (lit "hide") (ld_classList l))
                              (lit "none")) ∧
            tasks (win q) = [].
Proof.
  intros Hmm Hall.
  destruct (init_returns env (newPage d stored) eq_refl Hmm Hall) as [p Hp].
  exists p. split; [done |].
  pose proof (init_tasks env (newPage d stored) p eq_refl Hp) as Ht.
  simpl in Ht.
  split; [done |]. intros l Hl.
  destruct (init_fresh env (newPage d stored) eq_refl) as (D & C & _).
  rewrite Hp in D, C. simpl in D, C.
  apply (f_equal (λ x, x.1.1.1.1.1.1.1.1)) in D. simpl in D.
  rewrite Hl in D, Ht. simpl in Ht.
  unfold run, step, dispatch; simpl. rewrite Ht; simpl.
  unfold elements_loading; simpl. rewrite C, D; simpl.
  unfold elements_loading; simpl. rewrite C. done.
Qed.

Lemma loading_overlay_dismissed_witness :
  is_Some (matchMedia Sample.env) ∧
  Forall (λ link, is_Some (href link)) (navLinks Sample.document) ∧
  ∃ p, init Sample.env (newPage Sample.document ∅) = Ok p ∧
       tasks (win p)
       = (if present (loading Sample.document) then [HideLoading] else []) ∧
       ∀ l, loading Sample.document = Some l →
            let q := run Sample.env [Timer 0; Timer 0] p in
            loading (doc q)
            = Some (mkLoading (classList_add (lit "hide") (ld_classList l))
                              (lit "none")) ∧
            tasks (win q) = [].
Proof.
  assert (is_Some (matchMedia Sample.env)) as H1 by (eexists; reflexivity).
  assert (Forall (λ link, is_Some (href link)) (navLinks Sample.document))
    as H2 by (repeat constructor; eexists; reflexivity).
  split_and!; [exact H1 | exact H2 |].
  exact (loading_overlay_dismissed Sample.env Sample.document ∅ H1 H2).
Defined.

(** ** Events as sequences of actions *)

Lemma step_actions env p e : rtc (action env) p (step env p e).
Proof.
  unfold step, dispatch. destruct e.
  - destruct (listens _ p); [| done]. apply rtc_once, ActInit.
  - destruct (listens _ p); [| done]. apply rtc_once, ActToggleMenu.
  - destruct (navLinks (doc p) !! i) as [link |]; [| done].
    destruct (listens _ p); [| done]. apply rtc_once, ActSmoothScroll.
  - destruct (listens _ p); [| done]. apply rtc_once, ActToggleTheme.
  - eapply rtc_l; [apply (ActScrolled env p y) |].
    destruct (listens _ _); [| done]. apply rtc_once, ActOnScroll.
  - destruct (listens _ p); [| done]. apply rtc_once, ActKeydown.
  - destruct (listens _ p); [| done]. apply rtc_once, ActMark.
  - destruct (listens _ p); [| done]. apply rtc_once, ActBlur.
  - eapply rtc_l; [apply (ActType env p i v) |].
    destruct (listens _ _); [| done]. apply rtc_once, ActClear.
  - destruct (listens _ p); [| done]. apply rtc_once.
    pose proof (ActSubmit env p) as H. by destruct (submitStart p).
  - destruct (pending (ctl p)) as [| t rest] eqn:E; [done |].
    by apply rtc_once, ActSettle.
  - destruct (tasks (win p) !! n) as [t |] eqn:E; [| done].
    by apply rtc_once, ActTimer.
  - apply rtc_once, ActIntersect.
Qed.

(** What every action keeps, every run of events keeps. *)
Lemma run_actions (I : Page → Prop) env :
  (∀ p q, action env p q → I p → I q) →
  ∀ es p, I p → I (run env es p).
Proof.
  intros Hact es p Hp. apply run_invariant; [| done].
  intros p' e _ Hp'. pose proof (step_actions env p' e) as Hs.
  induction Hs as [| x y z Hxy _ IH]; [done |].
  apply IH. by eapply Hact.
Qed.

Lemma toggleMobileMenu_passive p :
  passiveView (state_of (toggleMobileMenu p)) = passiveView p.
Proof.
  unfold toggleMobileMenu, elements_navMenu, elements_navToggle.
  by repeat case_match.
Qed.

Lemma passive_view env p q : passive env p q → passiveView q = passiveView p.
Proof.
  destruct 1 as [| link | | y | key | name | Hi].
  - apply toggleMobileMenu_passive.
  - unfold handleSmoothScroll. destruct (target link); try done.
    set (p1 := upd_win _ p). destruct (menuIsActive p1); [| done].
    apply (toggleMobileMenu_passive p1).
  - done.
  - done.
  - unfold onKeydown. destruct (_ && _); [| done].
    apply toggleMobileMenu_passive.
  - unfold mark. by case_bool_decide.
  - by rewrite (init_again env p Hi).
Qed.

Lemma passive_fields env p q :
  passive env p q →
  header (doc q) = header (doc p) ∧ loading (doc q) = loading (doc p) ∧
  contactForm (doc q) = contactForm (doc p) ∧ cards (doc q) = cards (doc p) ∧
  notifications (doc q) = notifications (doc p) ∧
  tasks (win q) = tasks (win p) ∧ nextId (win q) = nextId (win p) ∧
  console (win q) = console (win p) ∧
  StaticPages (win q) = StaticPages (win p) ∧
  ticking (ctl q) = ticking (ctl p) ∧
  isInitialized (ctl q) = isInitialized (ctl p) ∧
  pending (ctl q) = pending (ctl p).
Proof.
  intros H%passive_view. unfold passiveView in H.
  injection H as -> -> -> -> -> -> -> -> -> -> -> ->. done.
Qed.

(** An action is passive, or one of the others. *)
Lemma action_cases env p q :
  action env p q →
  passive env p q ∨
  (isInitialized (ctl p) = false ∧ q = state_of (init env p)) ∨
  q = onScroll p ∨
  (∃ i g, q = onInput i g p ∧
          (g = (λ input errs, (validateInput input errs).2) ∨
           (∃ v, g = (λ input errs, (set_value v input, errs))) ∨
           g = clearValidationError)) ∨
  q = match submitStart p with
      | Done r => state_of r
      | Awaiting originalText p1 =>
          upd_ctl (set_pending (pending (ctl p1) ++ [originalText])) p1
      end ∨
  (∃ originalText rest o,
     pending (ctl p) = originalText :: rest ∧
     q = submitSettled originalText o (upd_ctl (set_pending rest) p)) ∨
  (∃ n t, tasks (win p) !! n = Some t ∧
          q = runTask t (upd_win (set_tasks (delete n (tasks (win p)))) p)) ∨
  (∃ i b, q = upd_doc (set_cards (alter (revealCard b) i (cards (doc p)))) p).
Proof.
  destruct 1 as [| | link | | y | | key | name | i | i v | i | | t rest o E
                 | n t E | i b].
  - destruct (isInitialized (ctl p)) eqn:Hi.
    + left. by apply PasInitAgain.
    + right. by left.
  - left. constructor.
  - left. constructor.
  - left. constructor.
  - left. constructor.
  - do 2 right. by left.
  - left. constructor.
  - left. constructor.
  - do 3 right. left. eexists i, _. split; [done |]. by left.
  - do 3 right. left. eexists i, _. split; [done |]. right. left. eauto.
  - do 3 right. left. eexists i, _. split; [done |]. by do 2 right.
  - do 4 right. by left.
  - do 5 right. left. eauto.
  - do 6 right. left. eauto.
  - do 7 right. eauto.
Qed.

(** ** The header on scroll *)

Lemma elem_of_delete {A} (x : A) n (l : list A) : x ∈ delete n l → x ∈ l.
Proof. intros H. eapply elem_of_sublist; [done | apply sublist_delete]. Qed.

Ltac unfold_submit :=
  unfold submitStart, submitSettled, mapForm, showNotification,
    appendNotification, removeExisting, schedule, setForm,
    elements_contactForm, onInput in *.

Lemma action_headerSettled env h p q :
  action env p q → headerSettled h p → headerSettled h q.
Proof.
  intros Ha (I & T & N & H). unfold headerSettled.
  apply action_cases in Ha
    as [Ha | [[Hi ->] | [-> | [(i & g & -> & _) | [-> | [(t & rest & o & E & ->)
       | [(n & t & E & ->) | (i & b & ->)]]]]]]].
  - apply passive_fields in Ha
      as (-> & _ & _ & _ & _ & -> & _ & _ & _ & -> & -> & _).
    done.
  - congruence.
  - unfold onScroll. by rewrite T.
  - unfold_submit. by repeat case_match.
  - unfold_submit.
    repeat case_match; simplify_eq/=; split_and!; try done;
      rewrite !elem_of_app, !list_elem_of_singleton; naive_solver.
  - unfold_submit.
    repeat case_match; simplify_eq/=; split_and!; try done;
      rewrite !elem_of_app, !list_elem_of_singleton; naive_solver.
  - assert (t ≠ HeaderFrame) as Ht.
    { intros ->. apply list_elem_of_lookup_2 in E. by apply N. }
    assert (HeaderFrame ∉ delete n (tasks (win p))) as N'.
    { intros Hin. apply elem_of_delete in Hin. by apply N. }
    unfold runTask, schedule, elements_loading.
    destruct t; try done; repeat case_match; simplify_eq/=;
      split_and!; try done;
      rewrite ?elem_of_app, ?list_elem_of_singleton; naive_solver.
  - done.
Qed.

(** The header is updated on scroll at most once.  The scroll listener
    sets [ticking] when it asks for a frame and nothing resets it; so
    once that frame has run, no event changes the header again, however
    far the page is scrolled, and no further frame is asked for. *)
Theorem header_updated_once env p es :
  isInitialized (ctl p) = true → ticking (ctl p) = true →
  HeaderFrame ∉ tasks (win p) →
  header (doc (run env es p)) = header (doc p) ∧
  (HeaderFrame ∉ tasks (win (run env es p))).
Proof.
  intros I T N.
  assert (headerSettled (header (doc p)) (run env es p)) as (_ & _ & ? & ?).
  { apply run_actions; [apply action_headerSettled | done]. }
  done.
Qed.

Lemma header_updated_once_witness :
  let p := run Sample.env [Scroll 5; Timer 1] Sample.page in
  isInitialized (ctl p) = true ∧ ticking (ctl p) = true ∧
  (HeaderFrame ∉ tasks (win p)) ∧
  header (doc p) = Some (mkHeader [lit "header"] 64) ∧
  header (doc (run Sample.env [Scroll 500; Timer 0; Scroll 900] p))
  = header (doc p).
Proof.
  assert (HeaderFrame
          ∉ tasks (win (run Sample.env [Scroll 5; Timer 1] Sample.page))) as N.
  { vm_compute. intros H. apply list_elem_of_singleton in H. discriminate H. }
  split_and!; [reflexivity | reflexivity | exact N | reflexivity |].
  exact (proj1 (header_updated_once Sample.env
                  (run Sample.env [Scroll 5; Timer 1] Sample.page)
                  [Scroll 500; Timer 0; Scroll 900] eq_refl eq_refl N)).
Defined.

Lemma contains_add_other c c' l :
  c' ≠ c → contains c' (classList_add c l) = contains c' l.
Proof.
  intros Hc. unfold classList_add. destruct (contains c l); [done |].
  unfold contains. apply bool_decide_ext.
  rewrite elem_of_app, list_elem_of_singleton. naive_solver.
Qed.

Lemma contains_remove c l : contains c (classList_remove c l) = false.
Proof.
  unfold contains, classList_remove. apply bool_decide_eq_false.
  rewrite list_elem_of_filter. naive_solver.
Qed.

Lemma contains_remove_other c c' l :
  c' ≠ c → contains c' (classList_remove c l) = contains c' l.
Proof.
  intros Hc. unfold contains, classList_remove. apply bool_decide_ext.
  rewrite list_elem_of_filter. naive_solver.
Qed.

(** After [updateHeaderOnScroll] the header has the class [scrolled]
    exactly if the page is scrolled by more than 10 pixels; its other
    classes and its height are as before. *)
Theorem updateHeaderOnScroll_class p h :
  elements_header p = Some h →
  ∃ h', header (doc (updateHeaderOnScroll p)) = Some h' ∧
        contains (lit "scrolled") (hdr_classList h')
        = (10 <? pageYOffset (win p))%Z ∧
        hdr_offsetHeight h' = hdr_offsetHeight h ∧
        ∀ c, c ≠ lit "scrolled" →
             contains c (hdr_classList h') = contains c (hdr_classList h).
Proof.
  intros Hh. unfold updateHeaderOnScroll. rewrite Hh.
  eexists. split; [done |]. simpl. unfold classList_force.
  destruct (10 <? pageYOffset (win p))%Z; split_and!; try done.
  - apply contains_add.
  - intros c Hc. by apply contains_add_other.
  - apply contains_remove.
  - intros c Hc. by apply contains_remove_other.
Qed.

Lemma updateHeaderOnScroll_class_witness :
  let p := step Sample.env Sample.page (Scroll 11) in
  let h := mkHeader [lit "header"] 64 in
  elements_header p = Some h ∧
  ∃ h', header (doc (updateHeaderOnScroll p)) = Some h' ∧
        contains (lit "scrolled") (hdr_classList h')
        = (10 <? pageYOffset (win p))%Z ∧
        hdr_offsetHeight h' = hdr_offsetHeight h ∧
        ∀ c, c ≠ lit "scrolled" →
             contains c (hdr_classList h') = contains c (hdr_classList h).
Proof.
  split; [reflexivity |].
  exact (updateHeaderOnScroll_class
           (step Sample.env Sample.page (Scroll 11))
           (mkHeader [lit "header"] 64) eq_refl).
Defined.

(** ** Smooth scrolling *)

(** Clicking a link whose target is in the document scrolls to the
    target less the height of the header (80 when there is no header)
    and, with the menu toggle in the document, leaves the menu closed:
    an open menu is closed and the body set free to scroll. *)
Theorem handleSmoothScroll_found this p y :
  target this = Found y →
  present (navToggle (doc p)) = true →
  ∃ q, handleSmoothScroll this p = Ok q ∧
       scrollCalls (win q)
       = scrollCalls (win p)
         ++ [(y - match elements_header p with
                  | Some h => hdr_offsetHeight h
                  | None => 80
                  end)%Z] ∧
       menuIsActive q = false ∧
       (menuIsActive p = true → bodyOverflow (doc q) = []).
Proof.
  intros Ht Hg. unfold handleSmoothScroll. rewrite Ht.
  set (p1 := upd_win _ p).
  change (menuIsActive p1) with (menuIsActive p).
  destruct (menuIsActive p) eqn:Ha; [| by eexists].
  unfold menuIsActive, toggleMobileMenu, elements_navMenu,
    elements_navToggle in *.
  subst p1; simpl.
  destruct (cached (ctl p)) eqn:Hc; [| done].
  destruct (navMenu (doc p)) as [menu |] eqn:Hm; [| done]. simpl.
  destruct (navToggle (doc p)) as [toggle |]; [| done].
  eexists. split; [done |]. simpl. rewrite Hc.
  rewrite contains_toggle, Ha. done.
Qed.

Lemma handleSmoothScroll_found_witness :
  let p := step Sample.env Sample.page ClickNavToggle in
  let this := mkLink (Some (lit "#about")) (Found 900) in
  target this = Found 900 ∧
  present (navToggle (doc p)) = true ∧
  menuIsActive p = true ∧
  ∃ q, handleSmoothScroll this p = Ok q ∧
       scrollCalls (win q) = [836%Z] ∧
       menuIsActive q = false ∧
       (menuIsActive p = true → bodyOverflow (doc q) = []).
Proof.
  split_and!; [reflexivity | reflexivity | reflexivity |].
  exact (handleSmoothScroll_found
           (mkLink (Some (lit "#about")) (Found 900))
           (step Sample.env Sample.page ClickNavToggle) 900 eq_refl eq_refl).
Defined.

(** ** The Escape key *)

Lemma action_keyInvariant env p q :
  action env p q → keyInvariant p → keyInvariant q.
Proof.
  intros Ha [HL HC].
  assert (∀ p', keyInvariant p' →
                keyInvariant (state_of (toggleMobileMenu p'))) as Hmenu.
  { intros p' [HL' HC'].
    destruct (toggleMobileMenu_keeps p') as ((_ & _ & C & _ & L) & _).
    unfold keyInvariant, listens in *. rewrite C, L. split; [done |].
    unfold toggleMobileMenu, elements_navMenu in *.
    destruct (cached (ctl p')); [done |]. exact HC'. }
  assert (∀ q', keepsMenu p q' → keepsCore p q' → keyInvariant q') as Hkeep.
  { intros q' (M & _) (_ & _ & C & _ & L).
    unfold keyInvariant, listens, menuActive in *. by rewrite M, C, L. }
  destruct Ha as [| | link | | y | | key | name | i | i v | i | | t rest o E
                 | n t E | i b].
  - destruct (isInitialized (ctl p)) eqn:Hi;
      [by rewrite (init_again env p Hi) |].
    destruct (init_fresh env p Hi) as (D & C & _ & _ & L & _).
    split; [by apply L |]. by rewrite C.
  - by apply Hmenu.
  - unfold handleSmoothScroll. destruct (target link); try done.
    set (p1 := upd_win _ p). destruct (menuIsActive p1); [| done].
    by apply Hmenu.
  - apply Hkeep; apply toggleTheme_keeps.
  - done.
  - apply Hkeep; apply onScroll_keeps.
  - unfold onKeydown. destruct (_ && _); [| done]. by apply Hmenu.
  - apply Hkeep; apply mark_keeps.
  - apply Hkeep; apply onInput_keeps.
  - apply Hkeep; apply onInput_keeps.
  - apply Hkeep; apply onInput_keeps.
  - pose proof (submitStart_keeps p) as H.
    destruct (submitStart p) as [r | t p1]; simpl in H;
      apply Hkeep; apply H.
  - apply Hkeep;
      apply (submitSettled_keeps t o (upd_ctl (set_pending rest) p)).
  - apply Hkeep;
      apply (runTask_keeps t
               (upd_win (set_tasks (delete n (tasks (win p)))) p)).
  - done.
Qed.

Lemma load_keyInvariant env d stored :
  menuActive d = false → keyInvariant (load env d stored).
Proof.
  intros Hm. destruct (load_facts env d stored) as (D & _).
  split.
  - unfold load, script.
    set (p0 := addEventListener OnKeydown (newPage d stored)).
    assert (listens OnKeydown p0 = true) as L0.
    { subst p0. rewrite listens_addEventListener.
      by rewrite bool_decide_eq_true_2. }
    assert (∀ (b : bool) p, listens OnKeydown p = true →
              listens OnKeydown
                (if b then upd_win (set_StaticPages true)
                             (addEventListener OnVisibilityChange p)
                 else addEventListener OnVisibilityChange p) = true) as Hfin.
    { intros b p Hp.
      assert (listens OnKeydown (addEventListener OnVisibilityChange p) = true)
        as H by (rewrite listens_addEventListener, Hp; apply orb_true_r).
      by destruct b. }
    destruct (bool_decide (readyState env = lit "loading")); cbn [andThen].
    + cbn [state_of]. apply Hfin. rewrite listens_addEventListener, L0.
      apply orb_true_r.
    + destruct (init_fresh env p0 eq_refl) as (_ & _ & _ & _ & L & _).
      specialize (L _ L0).
      destruct (init env p0) as [p1 | e p1]; cbn [andThen state_of] in *;
        [by apply Hfin | done].
  - unfold menuActive in *. unfold docCore in D.
    injection D as _ _ _ D _ _ _ _ _. rewrite D, Hm. done.
Qed.

(** On a page served with the menu closed, whatever events came before,
    the Escape key leaves the menu closed and the body free to scroll,
    and any other key changes nothing. *)
Theorem escape_closes_menu env d stored es :
  servedClosed d →
  let p := run env es (load env d stored) in
  let q := step env p (Keydown (lit "Escape")) in
  menuActive (doc q) = false ∧ scrollLocked (doc q) = false ∧
  ∀ key, key ≠ lit "Escape" → step env p (Keydown key) = p.
Proof.
  intros [Hm Hs]. cbv zeta. set (p := run env es (load env d stored)).
  assert (menuInvariant p) as HI.
  { apply run_invariant; [intros; by apply step_menuInvariant |].
    destruct (load_facts env d stored) as (D & L & _).
    unfold menuInvariant, menuActive, scrollLocked in *.
    unfold docCore in D. injection D as _ _ D1 D2 _ _ _ D3 _.
    rewrite D1, D2, D3, Hm, Hs. done. }
  assert (keyInvariant p) as [HL HC].
  { apply run_actions; [apply action_keyInvariant |].
    by apply load_keyInvariant. }
  assert (menuInvariant (step env p (Keydown (lit "Escape")))) as HI'
    by by apply step_menuInvariant.
  destruct HI' as (E & _). rewrite <- E.
  assert (menuActive (doc (step env p (Keydown (lit "Escape")))) = false)
    as Hclosed; [| split_and!; [done | done |]].
  - unfold step, dispatch. rewrite HL. unfold onKeydown.
    rewrite bool_decide_eq_true_2 by done. simpl.
    destruct (menuIsActive p) eqn:Ha.
    + pose proof (menuIsActive_menuActive p Ha) as Hd.
      destruct (toggleMobileMenu_menuInvariant p HI) as [_ ->].
      * by apply menuInvariant_active.
      * rewrite Hd. unfold menuIsActive in Ha.
        by destruct (elements_navMenu p).
    + simpl. destruct (menuActive (doc p)) eqn:Hd; [| done].
      unfold menuIsActive, elements_navMenu, menuActive in *.
      rewrite (HC eq_refl) in Ha. congruence.
  - intros key Hk. unfold step, dispatch. rewrite HL. unfold onKeydown.
    by rewrite bool_decide_eq_false_2.
Qed.

Lemma escape_closes_menu_witness :
  servedClosed Sample.document ∧
  let p := run Sample.env [ClickNavToggle]
               (load Sample.env Sample.document ∅) in
  let q := step Sample.env p (Keydown (lit "Escape")) in
  menuActive (doc p) = true ∧
  menuActive (doc q) = false ∧ scrollLocked (doc q) = false ∧
  ∀ key, key ≠ lit "Escape" → step Sample.env p (Keydown key) = p.
Proof.
  assert (servedClosed Sample.document) as H by (split; reflexivity).
  split; [exact H |]. split; [reflexivity |].
  exact (escape_closes_menu Sample.env Sample.document ∅ [ClickNavToggle] H).
Defined.
